(** * Verification of the document-assembly backend (backend/main.py)

    A shallow embedding of [parse_excel_config], [append_section] and
    [upload_and_process], with the properties of the design document
    stated and proved over it.

    Python values are embedded as follows.
    - [str] is a sequence of Unicode code points: [pystr := list N].
      String literals of the source are written [u "..."], which decodes
      the UTF-8 bytes of the literal into code points.
    - the descriptor [dict] is a finite map [gmap string pystr].
    - the [Document] is the ordered list of its body blocks; every
      mutation of the source is a state transformer on that list. *)

From stdpp Require Import base list strings gmap sorting.
From Stdlib Require Import NArith DecimalN.
From Stdlib Require QArith.

Set Default Proof Using "Type".

(** ** Python strings *)

Abbreviation pystr := (list N).

(** UTF-8 decoding of a literal: [pending] holds the bits read so far of
    a multi-byte sequence and [need] the number of continuation bytes
    still expected. *)
Fixpoint utf8_decode (pending : N) (need : nat) (s : string) : pystr :=
  match s with
  | EmptyString => []
  | String a s' =>
      let b := Ascii.N_of_ascii a in
      match need with
      | O =>
          if (b <? 128)%N then b :: utf8_decode 0 0 s'
          else if (b <? 224)%N then utf8_decode (N.land b 31) 1 s'
          else if (b <? 240)%N then utf8_decode (N.land b 15) 2 s'
          else utf8_decode (N.land b 7) 3 s'
      | S O => (pending * 64 + N.land b 63)%N :: utf8_decode 0 0 s'
      | S n => utf8_decode (pending * 64 + N.land b 63)%N n s'
      end
  end.

Definition u (s : string) : pystr := utf8_decode 0 0 s.

(** [str.isspace] for one code point: the white-space table of CPython
    ([_PyUnicode_IsWhitespace]). *)
Definition is_space (c : N) : bool :=
  ((9 <=? c) && (c <=? 13) || (28 <=? c) && (c <=? 32)
   || (c =? 133) || (c =? 160) || (c =? 5760)
   || (8192 <=? c) && (c <=? 8202)
   || (c =? 8232) || (c =? 8233) || (c =? 8239) || (c =? 8287)
   || (c =? 12288))%N.

(** [s.lstrip()], [s.rstrip()], [s.strip()] *)
Fixpoint lstrip (s : pystr) : pystr :=
  match s with
  | c :: s' => if is_space c then lstrip s' else s
  | [] => []
  end.

Definition rstrip (s : pystr) : pystr := reverse (lstrip (reverse s)).

Definition strip (s : pystr) : pystr := rstrip (lstrip s).

(** [s.startswith(p)], [s.endswith(p)] *)
Fixpoint startswith (s p : pystr) {struct p} : bool :=
  match p, s with
  | [], _ => true
  | _ :: _, [] => false
  | a :: p', b :: s' => (a =? b)%N && startswith s' p'
  end.

Definition endswith (s p : pystr) : bool :=
  startswith (reverse s) (reverse p).

(** [s.removesuffix(p)] *)
Definition removesuffix (s p : pystr) : pystr :=
  match p with
  | [] => s
  | _ => if endswith s p then take (length s - length p) s else s
  end.

(** [sub in s] *)
Fixpoint str_in (sub s : pystr) : bool :=
  startswith s sub ||
  match s with
  | [] => false
  | _ :: s' => str_in sub s'
  end.

(** [s.split(sep, 1)] for a non-empty separator: the text before the
    first occurrence and the text after it, or [s] alone. *)
Fixpoint split1 (sep s : pystr) : list pystr :=
  if startswith s sep then [[]; drop (length sep) s]
  else match s with
       | [] => [[]]
       | c :: s' =>
           match split1 sep s' with
           | h :: t => (c :: h) :: t
           | [] => [[c]]
           end
       end.

(** [str(n)] for a non-negative integer: its decimal digits. *)
Fixpoint digits (d : Decimal.uint) : pystr :=
  match d with
  | Decimal.Nil => []
  | Decimal.D0 d => 48%N :: digits d
  | Decimal.D1 d => 49%N :: digits d
  | Decimal.D2 d => 50%N :: digits d
  | Decimal.D3 d => 51%N :: digits d
  | Decimal.D4 d => 52%N :: digits d
  | Decimal.D5 d => 53%N :: digits d
  | Decimal.D6 d => 54%N :: digits d
  | Decimal.D7 d => 55%N :: digits d
  | Decimal.D8 d => 56%N :: digits d
  | Decimal.D9 d => 57%N :: digits d
  end.

Definition str_of_int (n : N) : pystr := digits (N.to_uint n).

(** [enumerate(l, start)] *)
Fixpoint enumerate {A} (l : list A) (start : N) : list (N * A) :=
  match l with
  | [] => []
  | x :: l' => (start, x) :: enumerate l' (start + 1)%N
  end.

(** ** Reading the configuration sheet *)

(** Modelled from the spec: the spreadsheet reader capability (openpyxl,
    not part of the repository) yields each cell of columns A and B as a
    raw value that is a string or empty; [None] is the empty cell. *)
Definition cell : Type := option pystr.

(** Truth value of a cell, and [str(cell)]. *)
Definition truthy (c : cell) : bool :=
  match c with
  | None | Some [] => false
  | Some (_ :: _) => true
  end.

Definition py_str (c : cell) : pystr :=
  match c with
  | Some s => s
  | None => u "None"
  end.

Definition MAIN_CHAPTER_NUMBER : pystr := u "1".

(** The body of the loop of [parse_excel_config] below its guard: the
    [dict] built for a row whose title cell passed [if not col_a]. *)
Definition section_of_row (idx : N) (col_a col_b : cell)
  : gmap string pystr :=
  let title_raw := strip (py_str col_a) in
  let query_var :=
    if truthy col_b then strip (py_str col_b) else u "（未提供）" in
  let delimiter := u "功能代碼:" in
  let folder_id := [] in
  let '(title, folder_id) :=
    if str_in delimiter title_raw then
      let parts := split1 delimiter title_raw in
      (strip (removesuffix (removesuffix (strip (parts !!! 0%nat)) (u ","))
                (u "，")),
       strip (parts !!! 1%nat))
    else (title_raw, folder_id) in
  {[ "folder" := folder_id;
     "title" := title;
     "query_condition" := query_var;
     "base_number" := MAIN_CHAPTER_NUMBER ++ u "." ++ str_of_int idx ]}.

(** One iteration of the loop; [sections] is the list built so far. *)
Definition parse_row (sections : list (gmap string pystr))
    (item : N * (cell * cell)) : list (gmap string pystr) :=
  let '(idx, (col_a, col_b)) := item in
  if negb (truthy col_a) then sections
  else sections ++ [section_of_row idx col_a col_b].

Definition parse_excel_config (rows : list (cell * cell))
  : list (gmap string pystr) :=
  foldl parse_row [] (enumerate rows 1).

(** ** The document store (python-docx) *)

(** Modelled from the spec: the document store capability (python-docx,
    not part of the repository).  A document is the ordered sequence of
    its body blocks.  Every block the library appends is a paragraph:
    a text paragraph or heading holds one text run, a page break holds a
    run with a page-break, a picture holds a run with the inline
    picture.  A template may also hold tables, which are body blocks
    but not paragraphs. *)
Inductive Length := Cm (cm : QArith_base.Q).

Inductive WD_ALIGN_PARAGRAPH := LEFT | CENTER | RIGHT | JUSTIFY.

Inductive run_content :=
  | Text (t : pystr)
  | PageBreak
  | InlinePicture (path : pystr) (width : Length).

Record run := Run {
  run_content_of : run_content;
  font_name : option pystr;        (* run.font.name *)
  font_east_asia : option pystr    (* rFonts w:eastAsia *)
}.

Inductive style := DefaultStyle | Heading (level : nat).

Record paragraph := Paragraph {
  p_style : style;
  p_runs : list run;
  p_alignment : option WD_ALIGN_PARAGRAPH
}.

Inductive block :=
  | Para (p : paragraph)
  | Table (id : N).

Abbreviation document := (list block).

(** ** Exceptions and the state monad of document mutations *)

Inductive exn_class :=
  | FileNotFoundError
  | IndexError
  | KeyError
  | HTTPException (status_code : N)
  | OtherException.

Record exn := Exn { exn_class_of : exn_class; exn_str : pystr }.

Inductive result (A : Type) :=
  | Return (a : A)
  | Raise (e : exn).
Arguments Return {A} a.
Arguments Raise {A} e.

(** A computation that mutates the shared document: it returns a value
    or raises, and in both cases leaves the document as mutated so far. *)
Definition M (A : Type) : Type := document -> result A * document.

#[global] Instance M_ret : MRet M := fun A a doc => (Return a, doc).

#[global] Instance M_bind : MBind M := fun A B k m doc =>
  match m doc with
  | (Return a, doc') => k a doc'
  | (Raise e, doc') => (Raise e, doc')
  end.

Definition raise {A} (e : exn) : M A := fun doc => (Raise e, doc).

(** [try: body except <classes accepted by handles> as e: handler e] *)
Definition try_except {A} (body : M A) (handles : exn -> bool)
    (handler : exn -> M A) : M A := fun doc =>
  match body doc with
  | (Raise e, doc') =>
      if handles e then handler e doc' else (Raise e, doc')
  | r => r
  end.

Definition is_FileNotFoundError (e : exn) : bool :=
  match exn_class_of e with FileNotFoundError => true | _ => false end.

(** [except Exception] accepts every class modelled here. *)
Definition is_Exception (e : exn) : bool := true.

(** The environment of one request: the file system as [os.listdir]
    sees it and the outcome of loading each image file.
    [add_picture_failure path = Some (partial, e)] means that
    [doc.add_picture(path, ...)] raises [e], the library having appended
    the blocks [partial] before it failed; [None] means that the picture is
    inserted. *)
Record world := World {
  os_listdir : pystr -> result (list pystr);
  add_picture_failure : pystr -> option (list block * exn)
}.

(** [doc.add_paragraph(text, style)]: the new paragraph is the last
    block; the handle returned is its position in the body. *)
Definition new_paragraph (text : pystr) (st : style) : paragraph :=
  {| p_style := st;
     p_runs := match text with
               | [] => []
               | _ => [Run (Text text) None None]
               end;
     p_alignment := None |}.

Definition doc_add_paragraph (text : pystr) (st : style) : M nat :=
  fun doc => (Return (length doc), doc ++ [Para (new_paragraph text st)]).

(** [doc.add_heading(text, level)] *)
Definition doc_add_heading (text : pystr) (level : nat) : M nat :=
  doc_add_paragraph text (Heading level).

(** [doc.add_page_break()] *)
Definition doc_add_page_break : M nat :=
  fun doc =>
    (Return (length doc),
     doc ++ [Para {| p_style := DefaultStyle;
                     p_runs := [Run PageBreak None None];
                     p_alignment := None |}]).

(** [doc.add_picture(path, width=width)] *)
Definition doc_add_picture (w : world) (path : pystr) (width : Length)
  : M unit :=
  fun doc =>
    match add_picture_failure w path with
    | None =>
        (Return (),
         doc ++ [Para {| p_style := DefaultStyle;
                         p_runs := [Run (InlinePicture path width) None None];
                         p_alignment := None |}])
    | Some (partial, e) => (Raise e, doc ++ partial)
    end.

(** Mutation of the paragraph behind a handle. *)
Definition on_paragraph (f : paragraph -> paragraph) (b : block) : block :=
  match b with
  | Para p => Para (f p)
  | Table _ => b
  end.

Definition update_paragraph (h : nat) (f : paragraph -> paragraph) : M unit :=
  fun doc => (Return (), alter (on_paragraph f) h doc).

Definition set_alignment (a : WD_ALIGN_PARAGRAPH) (p : paragraph) : paragraph :=
  {| p_style := p_style p; p_runs := p_runs p; p_alignment := Some a |}.

(** [doc.paragraphs[-1]]: the handle of the last paragraph of the body. *)
Fixpoint last_paragraph_from (i : nat) (doc : document) : option nat :=
  match doc with
  | [] => None
  | b :: doc' =>
      match last_paragraph_from (S i) doc' with
      | Some j => Some j
      | None => match b with Para _ => Some i | Table _ => None end
      end
  end.

Definition doc_last_paragraph : M nat :=
  fun doc =>
    match last_paragraph_from 0 doc with
    | Some h => (Return h, doc)
    | None => (Raise (Exn IndexError (u "list index out of range")), doc)
    end.

(** ** Core helpers of the source *)

Definition set_font_for_run (r : run) : run :=
  {| run_content_of := run_content_of r;
     font_name := Some (u "Times New Roman");
     font_east_asia := Some (u "標楷體") |}.

Definition set_font_for_runs (p : paragraph) : paragraph :=
  {| p_style := p_style p;
     p_runs := set_font_for_run <$> p_runs p;
     p_alignment := p_alignment p |}.

Definition add_paragraph_with_font (text : pystr) (st : style) : M nat :=
  p ← doc_add_paragraph text st;
  update_paragraph p set_font_for_runs;;
  mret p.

Definition add_heading_with_font (text : pystr) (level : nat) : M nat :=
  h ← doc_add_heading text level;
  update_paragraph h set_font_for_runs;;
  mret h.

(** ** Listing the image folder *)

(** [c.lower()] on the ASCII letters.  For the suffix tests below this
    agrees with [str.lower]: no code point outside [A-Z] lower-cases to
    a string containing one of the characters of the three suffixes. *)
Definition lower_char (c : N) : N :=
  if ((65 <=? c) && (c <=? 90))%N then (c + 32)%N else c.

Definition lower (s : pystr) : pystr := lower_char <$> s.

(** [f.lower().endswith(('.png', '.jpg', '.jpeg'))] *)
Definition is_image_name (f : pystr) : bool :=
  let l := lower f in
  endswith l (u ".png") || endswith l (u ".jpg") || endswith l (u ".jpeg").

(** [os.path.join(a, b)] (POSIX) *)
Definition os_path_join (a b : pystr) : pystr :=
  if startswith b (u "/") then b
  else if bool_decide (a = []) || endswith a (u "/") then a ++ b
  else a ++ u "/" ++ b.

(** Order of [str]: lexicographic on code points. *)
Fixpoint str_le (a b : pystr) : bool :=
  match a, b with
  | [], _ => true
  | _ :: _, [] => false
  | x :: a', y :: b' => (x <? y)%N || (x =? y)%N && str_le a' b'
  end.

Fixpoint insert_sorted (x : pystr) (l : list pystr) : list pystr :=
  match l with
  | [] => [x]
  | y :: l' => if str_le x y then x :: l else y :: insert_sorted x l'
  end.

(** [sorted(l)] on strings *)
Definition sorted (l : list pystr) : list pystr := foldr insert_sorted [] l.

Definition lift_result {A} (r : result A) : M A := fun doc => (r, doc).

(** ** [append_section] *)

Definition uniform_width_cm : QArith_base.Q := QArith_base.Qmake 1798 100.

(** The nested function [add_picture_with_uniform_width(idx)]; [images]
    is the variable of the enclosing call it closes over. *)
Definition add_picture_with_uniform_width (w : world) (images : list pystr)
    (idx : nat) : M unit :=
  if (idx <? length images)%nat then
    try_except
      (let width := Cm uniform_width_cm in
       doc_add_picture w (images !!! idx) width;;
       last ← doc_last_paragraph;
       update_paragraph last (set_alignment CENTER))
      is_Exception
      (fun e =>
         p ← add_paragraph_with_font
               (u "（警告：處理第 " ++ str_of_int (N.of_nat (idx + 1))
                  ++ u " 張圖片時發生錯誤: " ++ exn_str e ++ u "）")
               DefaultStyle;
         update_paragraph p (set_alignment CENTER))
  else
    p ← add_paragraph_with_font
          (u "（警告：此處缺少第 " ++ str_of_int (N.of_nat (idx + 1))
             ++ u " 張圖片）")
          DefaultStyle;
    update_paragraph p (set_alignment CENTER).

Definition append_section (w : world) (section_info : gmap string pystr)
    (image_folder : pystr) : M unit :=
  let base_number := default (u "?") (section_info !! "base_number") in
  let section_title := default (u "未命名標題") (section_info !! "title") in
  let section_folder_name :=
    default (u "未知資料夾") (section_info !! "folder") in
  let query_condition :=
    default (u "（未提供）") (section_info !! "query_condition") in
  images ← try_except
    (names ← lift_result (os_listdir w image_folder);
     mret (sorted (os_path_join image_folder <$> List.filter is_image_name names)))
    is_FileNotFoundError
    (fun _ =>
       add_paragraph_with_font
         (u "警告：找不到與 " ++ section_folder_name ++ u " 對應的圖片資料夾。")
         DefaultStyle;;
       mret []);
  let add_picture_with_uniform_width :=
    add_picture_with_uniform_width w images in
  doc_add_page_break;;
  add_heading_with_font
    (section_title ++ u "，功能代碼:" ++ section_folder_name) 2;;
  add_paragraph_with_font
    (u "在左側的功能選單中，點選「開關帳及TMP資料查詢放行」，接著點選「IFRS15查詢及放行」，最後再點選「"
       ++ section_title ++ u "」，即可開啟視窗。") DefaultStyle;;
  add_picture_with_uniform_width 0%nat;;
  add_heading_with_font (u "查詢功能") 3;;
  add_heading_with_font (u "查詢所有資料") 4;;
  add_paragraph_with_font
    (u "不輸入查詢條件，直接點擊查詢按鈕即可查詢所有資料。") DefaultStyle;;
  add_picture_with_uniform_width 1%nat;;
  add_heading_with_font (u "查詢特定資料") 4;;
  add_paragraph_with_font (u "查詢條件為：" ++ query_condition) DefaultStyle;;
  add_paragraph_with_font
    (u "先輸入查詢條件，再點擊查詢按鈕即可查詢特定資料。") DefaultStyle;;
  add_picture_with_uniform_width 2%nat;;
  doc_add_page_break;;
  add_heading_with_font (u "查詢結果") 4;;
  add_picture_with_uniform_width 3%nat;;
  add_heading_with_font (u "核可功能") 3;;
  add_paragraph_with_font
    (u "若要執行核可功能，需先點擊查詢，確認有資料且資料無誤後再點擊核可按鈕。")
    DefaultStyle;;
  add_heading_with_font (u "已查詢且有資料，點擊核可按鈕") 4;;
  add_picture_with_uniform_width 4%nat;;
  doc_add_page_break;;
  add_paragraph_with_font (u "跳出確認訊息。") DefaultStyle;;
  add_picture_with_uniform_width 5%nat;;
  add_paragraph_with_font
    (u "點擊確認，完成核可後顯示核可者、核可時間") DefaultStyle;;
  add_picture_with_uniform_width 6%nat;;
  doc_add_page_break;;
  add_heading_with_font (u "未查詢或無資料，點擊核可按鈕") 4;;
  add_paragraph_with_font
    (u "若未查詢或無資料就直接點擊核可按鈕，將會跳出警告。") DefaultStyle;;
  add_picture_with_uniform_width 7%nat;;
  add_heading_with_font (u "退回") 3;;
  add_paragraph_with_font
    (u "若已完成核可要執行退回功能，可直接點擊退回按鈕。") DefaultStyle;;
  add_picture_with_uniform_width 8%nat;;
  doc_add_page_break;;
  add_paragraph_with_font (u "跳出確認訊息。") DefaultStyle;;
  add_picture_with_uniform_width 9%nat;;
  add_paragraph_with_font
    (u "點擊確認，退回後不再顯示核可者、核可時間") DefaultStyle;;
  add_picture_with_uniform_width 10%nat.

(** ** The request handler [upload_and_process] *)

(** One request: the three uploads as the handler reads them, and the
    session directory it works in.  [main_docx] is the document that
    [Document(main_path)] opens, [config_file] the rows of the first
    worksheet from row 2 on, columns A and B.  The archive is given by
    what its extraction leaves on disk: [fs] is the file system after
    [extractall], [subs] the entries of the extraction root with their
    [is_dir()] flag, and [extractall_failure] the exception [zipfile]
    raises on an invalid archive.  [joinpath p name] is [str(p / name)]. *)
Record request := Request {
  main_docx_filename : pystr;
  main_docx : document;
  config_file : list (cell * cell);
  sid_path : pystr;
  sid_path_name : pystr;
  extractall_failure : option exn;
  subs : list (pystr * bool);
  fs : world;
  joinpath : pystr -> pystr -> pystr
}.

Record response := Response {
  message : pystr;
  output_filename : pystr;
  download_filename : pystr
}.

(** [for x in l: body(x)] *)
Fixpoint for_each {A} (l : list A) (body : A -> M unit) : M unit :=
  match l with
  | [] => mret ()
  | x :: l' => body x;; for_each l' body
  end.

(** [d[key]] *)
Definition getitem (d : gmap string pystr) (key : string) : M pystr :=
  match d !! key with
  | Some v => mret v
  | None => raise (Exn KeyError (u "'" ++ u key ++ u "'"))
  end.

(** The handler returns its reply (or the exception that ends the
    request) together with the output document it saved, if any, under
    its path. *)
Definition upload_and_process (r : request)
  : result response * option (pystr * document) :=
  let sections := parse_excel_config (config_file r) in
  match sections with
  | [] => (Raise (Exn (HTTPException 400) (u "Excel 沒有有效資料列")), None)
  | _ :: _ =>
      match extractall_failure r with
      | Some e => (Raise e, None)
      | None =>
          let img_root := joinpath r (sid_path r) (u "unzipped_images") in
          let img_root :=
            match subs r with
            | [(sub, true)] => sub
            | _ => img_root
            end in
          match
            for_each sections
              (fun s =>
                 folder ← getitem s "folder";
                 append_section (fs r) s (joinpath r img_root folder))
              (main_docx r)
          with
          | (Raise e, _) => (Raise e, None)
          | (Return _, doc) =>
              let out_name := u "processed_" ++ main_docx_filename r in
              let out_path := joinpath r (sid_path r) out_name in
              (Return {| message := u "處理完成！";
                         output_filename := out_name;
                         download_filename :=
                           sid_path_name r ++ u "/" ++ out_name |},
               Some (out_path, doc))
          end
      end
  end.

(** ** Vocabulary of the design document *)

(** A run of white space. *)
Abbreviation spaces := (Forall (λ c, is_space c = true)).

(** A cell is empty when it is absent or holds the empty text. *)
Definition cell_empty (c : cell) : Prop := c = None ∨ c = Some [].

#[global] Instance cell_empty_dec (c : cell) : Decision (cell_empty c).
Proof. unfold cell_empty. apply _. Defined.

(** The text of a cell. *)
Definition cell_text (c : cell) : pystr := default [] c.

Definition marker : pystr := u "功能代碼:".

Definition sentinel : pystr := u "（未提供）".

(** Position of the first occurrence of [sub] in [s]. *)
Fixpoint find (sub s : pystr) : option nat :=
  if startswith s sub then Some 0%nat
  else match s with
       | [] => None
       | _ :: s' => S <$> find sub s'
       end.

Definition contains (sub s : pystr) : bool :=
  match find sub s with Some _ => true | None => false end.

Definition text_before (sub s : pystr) : pystr :=
  match find sub s with
  | Some i => take i s
  | None => s
  end.

Definition text_after (sub s : pystr) : pystr :=
  match find sub s with
  | Some i => drop (i + length sub) s
  | None => []
  end.

(** A trailing comma, ASCII or full-width, removed. *)
Definition strip_trailing_comma (s : pystr) : pystr :=
  removesuffix (removesuffix s (u ",")) (u "，").

(** Title and folder identifier read off the text of a title cell. *)
Definition title_of_text (t : pystr) : pystr :=
  if contains marker t
  then strip (strip_trailing_comma (strip (text_before marker t)))
  else strip t.

Definition folder_id_of_text (t : pystr) : pystr :=
  if contains marker t then strip (text_after marker t) else [].

(** Query condition read off column B. *)
Definition query_condition_of_cell (c : cell) : pystr :=
  if decide (cell_empty c) then sentinel else strip (cell_text c).

(** The data rows that have a non-empty title cell, each with its
    1-based position in the sheet, in sheet order. *)
Definition titled_rows (rows : list (cell * cell)) : list (N * (cell * cell)) :=
  filter (λ it, ¬ cell_empty it.2.1) (enumerate rows 1).

(** Reading back a decimal numeral, and the number that follows the
    period of a [base_number]. *)
Definition digit_value (c : N) : option N :=
  if ((48 <=? c) && (c <=? 57))%N then Some (c - 48)%N else None.

Fixpoint int_of_digits_from (acc : N) (s : pystr) : option N :=
  match s with
  | [] => Some acc
  | c :: s' =>
      match digit_value c with
      | Some v => int_of_digits_from (10 * acc + v)%N s'
      | None => None
      end
  end.

Definition int_of_digits (s : pystr) : option N :=
  match s with
  | [] => None
  | _ => int_of_digits_from 0 s
  end.

Definition numeric_suffix (base_number : pystr) : option N :=
  match find (u ".") base_number with
  | Some i => int_of_digits (drop (S i) base_number)
  | None => None
  end.

(** The numeric suffixes of the descriptors of a parse result. *)
Definition suffixes (sections : list (gmap string pystr)) : list (option N) :=
  (λ d, d !! "base_number" ≫= numeric_suffix) <$> sections.

(** The numbering by output position: the suffix of the k-th descriptor
    produced is k, so that the suffixes read 1, 2, ..., n. *)
Definition numbered_by_output_position (rows : list (cell * cell)) : Prop :=
  suffixes (parse_excel_config rows)
  = (λ k, Some (N.of_nat k)) <$> seq 1 (length (parse_excel_config rows)).

(** ** Content blocks of the design document *)

(** Every inserted text is rendered in the two fixed font faces. *)
Definition fonted_runs (t : pystr) : list run :=
  match t with
  | [] => []
  | _ => [Run (Text t) (Some (u "Times New Roman")) (Some (u "標楷體"))]
  end.

Definition paragraph_block (t : pystr) : block :=
  Para (Paragraph DefaultStyle (fonted_runs t) None).

Definition centered_paragraph_block (t : pystr) : block :=
  Para (Paragraph DefaultStyle (fonted_runs t) (Some CENTER)).

Definition heading_block (level : nat) (t : pystr) : block :=
  Para (Paragraph (Heading level) (fonted_runs t) None).

Definition page_break_block : block :=
  Para (Paragraph DefaultStyle [Run PageBreak None None] None).

(** An image at the uniform width, centre-aligned. *)
Definition picture_block (path : pystr) : block :=
  Para (Paragraph DefaultStyle
          [Run (InlinePicture path (Cm uniform_width_cm)) None None]
          (Some CENTER)).

(** The three warnings; slot numbers are 1-based in the messages. *)
Definition missing_folder_warning (folder_id : pystr) : pystr :=
  u "警告：找不到與 " ++ folder_id ++ u " 對應的圖片資料夾。".

Definition missing_image_warning (i : nat) : pystr :=
  u "（警告：此處缺少第 " ++ str_of_int (N.of_nat (i + 1)) ++ u " 張圖片）".

Definition image_error_warning (i : nat) (e : exn) : pystr :=
  u "（警告：處理第 " ++ str_of_int (N.of_nat (i + 1))
    ++ u " 張圖片時發生錯誤: " ++ exn_str e ++ u "）".

(** The fields of a descriptor as the assembler reads them. *)
Definition title_of (info : gmap string pystr) : pystr :=
  default (u "未命名標題") (info !! "title").

Definition folder_id_of (info : gmap string pystr) : pystr :=
  default (u "未知資料夾") (info !! "folder").

Definition query_condition_of (info : gmap string pystr) : pystr :=
  default (u "（未提供）") (info !! "query_condition").

(** The image folder is missing: listing it raises [FileNotFoundError]. *)
Definition folder_missing (w : world) (image_folder : pystr) : Prop :=
  ∃ e, os_listdir w image_folder = Raise e ∧ is_FileNotFoundError e = true.

(** The image folder can be listed, or is missing. *)
Definition lists_or_missing (w : world) (image_folder : pystr) : Prop :=
  ∀ e, os_listdir w image_folder = Raise e → is_FileNotFoundError e = true.

(** The ImageSet of a section: the image files of its folder, sorted;
    empty when the folder cannot be listed. *)
Definition image_set (w : world) (image_folder : pystr) : list pystr :=
  match os_listdir w image_folder with
  | Return names =>
      sorted (os_path_join image_folder <$> List.filter is_image_name names)
  | Raise _ => []
  end.

(** What one image slot contributes, by the per-slot insertion rule. *)
Definition slot_blocks (w : world) (images : list pystr) (i : nat)
  : list block :=
  match images !! i with
  | None => [centered_paragraph_block (missing_image_warning i)]
  | Some path =>
      match add_picture_failure w path with
      | None => [picture_block path]
      | Some (partial, e) =>
          partial ++ [centered_paragraph_block (image_error_warning i e)]
      end
  end.

(** The fixed skeleton of a section: its content blocks and its image
    slots, in document order. *)
Inductive item :=
  | Block (b : block)
  | ImageSlot (i : nat).

Definition skeleton (title folder_id query_condition : pystr) : list item :=
  [ Block page_break_block;
    Block (heading_block 2 (title ++ u "，功能代碼:" ++ folder_id));
    Block (paragraph_block
      (u "在左側的功能選單中，點選「開關帳及TMP資料查詢放行」，接著點選「IFRS15查詢及放行」，最後再點選「"
         ++ title ++ u "」，即可開啟視窗。"));
    ImageSlot 0;
    Block (heading_block 3 (u "查詢功能"));
    Block (heading_block 4 (u "查詢所有資料"));
    Block (paragraph_block
      (u "不輸入查詢條件，直接點擊查詢按鈕即可查詢所有資料。"));
    ImageSlot 1;
    Block (heading_block 4 (u "查詢特定資料"));
    Block (paragraph_block (u "查詢條件為：" ++ query_condition));
    Block (paragraph_block
      (u "先輸入查詢條件，再點擊查詢按鈕即可查詢特定資料。"));
    ImageSlot 2;
    Block page_break_block;
    Block (heading_block 4 (u "查詢結果"));
    ImageSlot 3;
    Block (heading_block 3 (u "核可功能"));
    Block (paragraph_block
      (u "若要執行核可功能，需先點擊查詢，確認有資料且資料無誤後再點擊核可按鈕。"));
    Block (heading_block 4 (u "已查詢且有資料，點擊核可按鈕"));
    ImageSlot 4;
    Block page_break_block;
    Block (paragraph_block (u "跳出確認訊息。"));
    ImageSlot 5;
    Block (paragraph_block (u "點擊確認，完成核可後顯示核可者、核可時間"));
    ImageSlot 6;
    Block page_break_block;
    Block (heading_block 4 (u "未查詢或無資料，點擊核可按鈕"));
    Block (paragraph_block
      (u "若未查詢或無資料就直接點擊核可按鈕，將會跳出警告。"));
    ImageSlot 7;
    Block (heading_block 3 (u "退回"));
    Block (paragraph_block
      (u "若已完成核可要執行退回功能，可直接點擊退回按鈕。"));
    ImageSlot 8;
    Block page_break_block;
    Block (paragraph_block (u "跳出確認訊息。"));
    ImageSlot 9;
    Block (paragraph_block (u "點擊確認，退回後不再顯示核可者、核可時間"));
    ImageSlot 10 ].

Definition slot_index (it : item) : option nat :=
  match it with
  | Block _ => None
  | ImageSlot i => Some i
  end.

(** Rendering the skeleton, given what each slot contributes. *)
Definition render (slot : nat → list block) (items : list item) : list block :=
  items ≫= λ it, match it with
                 | Block b => [b]
                 | ImageSlot i => slot i
                 end.

Definition folder_warning (w : world) (info : gmap string pystr)
    (image_folder : pystr) : list block :=
  match os_listdir w image_folder with
  | Return _ => []
  | Raise e =>
      if is_FileNotFoundError e
      then [paragraph_block (missing_folder_warning (folder_id_of info))]
      else []
  end.

(** Everything one call of the assembler appends. *)
Definition section_delta (w : world) (info : gmap string pystr)
    (image_folder : pystr) : list block :=
  folder_warning w info image_folder
  ++ render (slot_blocks w (image_set w image_folder))
       (skeleton (title_of info) (folder_id_of info) (query_condition_of info)).

(** The per-slot rule with its failure case left out: an image for every
    slot within bounds, a warning for every slot out of bounds. *)
Definition slot_blocks_two_cases (images : list pystr) (i : nat)
  : list block :=
  match images !! i with
  | None => [centered_paragraph_block (missing_image_warning i)]
  | Some path => [picture_block path]
  end.

Definition eleven_slots_two_cases (w : world) (info : gmap string pystr)
    (image_folder : pystr) : Prop :=
  ∀ doc,
    append_section w info image_folder doc
    = (Return (),
       doc ++ folder_warning w info image_folder
           ++ render (slot_blocks_two_cases (image_set w image_folder))
                (skeleton (title_of info) (folder_id_of info)
                   (query_condition_of info))).

(** [appends m delta]: whatever the document, [m] returns normally and
    leaves the document with [delta] added at its end. *)
Definition appends {A} (m : M A) (delta : list block) : Prop :=
  ∀ doc, ∃ a, m doc = (Return a, doc ++ delta).

(** The image folder of a section in a request: the extraction root,
    or its only entry when that is a directory, joined with the folder
    identifier. *)
Definition img_root_of (r : request) : pystr :=
  match subs r with
  | [(sub, true)] => sub
  | _ => joinpath r (sid_path r) (u "unzipped_images")
  end.

Definition image_folder_of (r : request) (info : gmap string pystr) : pystr :=
  joinpath r (img_root_of r) (folder_id_of info).

(** ** A sample request *)

(** One folder [img/001] holding two images and a text file; the image
    [b.PNG] cannot be read.  Every other folder is missing. *)
Definition sample_world : world :=
  {| os_listdir := λ path,
       if bool_decide (path = u "img/001")
       then Return [u "b.PNG"; u "a.png"; u "notes.txt"]
       else Raise (Exn FileNotFoundError (u "No such file or directory"));
     add_picture_failure := λ path,
       if bool_decide (path = u "img/001/b.PNG")
       then Some ([], Exn OtherException (u "cannot identify image file"))
       else None |}.

Definition sample_rows : list (cell * cell) :=
  [(Some (u "Title功能代碼:001"), Some (u "ID > 5"));
   (None, Some (u "ignored"));
   (Some (u "Other"), None)].

Definition sample_info : gmap string pystr :=
  section_of_row 1 (Some (u "Title功能代碼:001")) (Some (u "ID > 5")).

Definition sample_request : request :=
  {| main_docx_filename := u "manual.docx";
     main_docx := [Table 0];
     config_file := sample_rows;
     sid_path := u "temp/sid";
     sid_path_name := u "sid";
     extractall_failure := None;
     subs := [(u "img", true)];
     fs := sample_world;
     joinpath := os_path_join |}.
(** ** Scenarios of the design document *)

(** A folder [img/001] holding eleven readable images, listed in no
    particular order. *)
Definition eleven_images_world : world :=
  {| os_listdir := λ path,
       if bool_decide (path = u "img/001")
       then Return [u "10.png"; u "02.JPG"; u "11.png"; u "01.png";
                    u "04.png"; u "03.jpeg"; u "06.png"; u "05.png";
                    u "08.png"; u "07.png"; u "09.png"; u "Thumbs.db"]
       else Raise (Exn FileNotFoundError (u "No such file or directory"));
     add_picture_failure := λ _, None |}.

Definition is_picture (b : block) : bool :=
  match b with
  | Para p =>
      existsb (λ r, match run_content_of r with
                    | InlinePicture _ _ => true
                    | _ => false
                    end) (p_runs p)
  | Table _ => false
  end.

Definition is_page_break (b : block) : bool :=
  match b with
  | Para p =>
      existsb (λ r, match run_content_of r with
                    | PageBreak => true
                    | _ => false
                    end) (p_runs p)
  | Table _ => false
  end.

Definition block_text (b : block) : pystr :=
  match b with
  | Para p =>
      p_runs p ≫= λ r, match run_content_of r with
                       | Text t => t
                       | _ => []
                       end
  | Table _ => []
  end.

(** The warning paragraphs open with the word for warning, the slot
    warnings after a full-width parenthesis. *)
Definition is_warning (b : block) : bool :=
  startswith (block_text b) (u "警告：")
  || startswith (block_text b) (u "（警告：").

Definition count (f : block → bool) (doc : document) : nat :=
  length (List.filter f doc).

(** ** The download endpoint *)

(** The reply of [download_file]: a file response for the path [p],
    offered under the name [fname]. *)
Record FileResponse := {
  fr_path : pystr;
  fr_filename : pystr;
  fr_media_type : pystr
}.

(** [download_file(sid, fname)]; [TEMP_DIR] is the directory of the
    sessions, [joinpath] is [/] on paths and [path_exists p] is
    [p.exists()]. *)
Definition download_file (joinpath : pystr → pystr → pystr) (TEMP_DIR : pystr)
    (path_exists : pystr → bool) (sid fname : pystr) : result FileResponse :=
  let p := joinpath (joinpath TEMP_DIR sid) fname in
  if negb (path_exists p) then
    Raise (Exn (HTTPException 404) (u "找不到檔案"))
  else
    Return {| fr_path := p;
              fr_filename := fname;
              fr_media_type :=
                u "application/vnd.openxmlformats-officedocument.wordprocessingml.document" |}.

(** ** Further vocabulary *)

(** A text free of white space at both ends. *)
Definition trimmed (s : pystr) : Prop := strip s = s.

(** The order of [sorted]. *)
Definition str_le_prop (a b : pystr) : Prop := str_le a b = true.

(** Whatever a failed insertion leaves behind in the document
    satisfies [P]. *)
Definition residues (P : block → Prop) (w : world) : Prop :=
  ∀ path partial e,
    add_picture_failure w path = Some (partial, e) → Forall P partial.

(** The image can be inserted. *)
Definition readable (w : world) (path : pystr) : bool :=
  match add_picture_failure w path with
  | None => true
  | Some _ => false
  end.

Definition is_heading (level : nat) (b : block) : bool :=
  match b with
  | Para p =>
      match p_style p with
      | Heading l => bool_decide (l = level)
      | DefaultStyle => false
      end
  | Table _ => false
  end.

(** Every text run of the block carries the two fixed font faces. *)
Definition text_fonted (b : block) : Prop :=
  match b with
  | Para p =>
      Forall (λ r, match run_content_of r with
                   | Text _ =>
                       font_name r = Some (u "Times New Roman")
                       ∧ font_east_asia r = Some (u "標楷體")
                   | _ => True
                   end) (p_runs p)
  | Table _ => True
  end.

(** The blocks of a skeleton that are not image slots. *)
Definition fixed_blocks (items : list item) : list block :=
  omap (λ it, match it with Block b => Some b | ImageSlot _ => None end) items.

(** The part of [os.path.join(a, _)] that does not depend on the name. *)
Definition join_prefix (a : pystr) : pystr :=
  if bool_decide (a = []) || endswith a (u "/") then a else a ++ u "/".



(** A centre-aligned paragraph that is not a picture: what an image
    slot leaves in place of a missing image. *)
Definition is_slot_warning (b : block) : bool :=
  match b with
  | Para p =>
      match p_alignment p with
      | Some CENTER => negb (is_picture b)
      | _ => false
      end
  | Table _ => false
  end.

(** * Proofs *)

(** ** Strings *)

Lemma utf8_marker : u "功能代碼:" = [21151; 33021; 20195; 30908; 58]%N.
Proof. reflexivity. Qed.

Lemma utf8_sentinel : u "（未提供）" = [65288; 26410; 25552; 20379; 65289]%N.
Proof. reflexivity. Qed.

Lemma utf8_commas : u "," = [44]%N ∧ u "，" = [65292]%N.
Proof. split; reflexivity. Qed.

Lemma lstrip_spaces (l x : pystr) : spaces l → lstrip (l ++ x) = lstrip x.
Proof. induction 1 as [|c l Hc _ IH]; simpl; [done | by rewrite Hc]. Qed.

Lemma lstrip_split (s : pystr) : ∃ l, s = l ++ lstrip s ∧ spaces l.
Proof.
  induction s as [|c s (l & Hl & Hsp)]; simpl.
  - by exists [].
  - destruct (is_space c) eqn:Hc.
    + exists (c :: l). split; [simpl; by f_equal | by constructor].
    + by exists [].
Qed.

Lemma rstrip_spaces (x r : pystr) : spaces r → rstrip (x ++ r) = rstrip x.
Proof.
  intros Hr. unfold rstrip. rewrite reverse_app, lstrip_spaces; [done|].
  by apply Forall_reverse.
Qed.

Lemma rstrip_split (s : pystr) : ∃ r, s = rstrip s ++ r ∧ spaces r.
Proof.
  destruct (lstrip_split (reverse s)) as (l & Hl & Hsp).
  exists (reverse l). split; [|by apply Forall_reverse].
  unfold rstrip. rewrite <- reverse_app, <- Hl. by rewrite reverse_involutive.
Qed.

Lemma rstrip_nil : rstrip [] = [].
Proof. reflexivity. Qed.

Lemma strip_spaces_l (l x : pystr) : spaces l → strip (l ++ x) = strip x.
Proof. intros Hl. unfold strip. by rewrite lstrip_spaces. Qed.

Lemma strip_spaces_r (x r : pystr) : spaces r → strip (x ++ r) = strip x.
Proof.
  intros Hr. unfold strip. induction x as [|c x IH]; simpl.
  - rewrite <- (app_nil_r r), lstrip_spaces; done.
  - destruct (is_space c); [done|].
    by apply (rstrip_spaces (c :: x) r).
Qed.

(** A text is its trimmed form between two runs of white space. *)
Lemma strip_split (s : pystr) :
  ∃ l r, s = l ++ strip s ++ r ∧ spaces l ∧ spaces r.
Proof.
  destruct (lstrip_split s) as (l & Hl & Hsl).
  destruct (rstrip_split (lstrip s)) as (r & Hr & Hsr).
  exists l, r. unfold strip. by rewrite <- Hr.
Qed.

Lemma startswith_length (s p : pystr) :
  startswith s p = true → (length p ≤ length s)%nat.
Proof.
  revert s. induction p as [|a p IH]; intros [|b s]; simpl; try done; try lia.
  intros [_ H]%andb_true_iff. apply IH in H. lia.
Qed.

Lemma startswith_spaces_r (t r p : pystr) :
  Forall (λ c, is_space c = false) p → spaces r →
  startswith (t ++ r) p = startswith t p.
Proof.
  intros Hp Hr. revert t. induction Hp as [|a p Ha _ IH]; intros t.
  - done.
  - destruct t as [|b t]; simpl.
    + destruct Hr as [|c r Hc _]; [done|]. simpl.
      destruct (N.eqb_spec a c) as [->|]; [congruence | done].
    + by rewrite IH.
Qed.

Lemma find_bound (sub s : pystr) (i : nat) :
  find sub s = Some i → (i + length sub ≤ length s)%nat.
Proof.
  revert i. induction s as [|c s IH]; intros i; simpl.
  - destruct (startswith [] sub) eqn:Hs; [|done].
    intros [= <-]. by apply startswith_length in Hs.
  - destruct (startswith (c :: s) sub) eqn:Hs.
    + intros [= <-]. by apply startswith_length in Hs.
    + destruct (find sub s) as [j|]; [|done].
      intros [= <-]. specialize (IH j eq_refl). simpl. lia.
Qed.

Lemma find_spaces_l (a : N) (sub l t : pystr) :
  is_space a = false → spaces l →
  find (a :: sub) (l ++ t) = (λ i, length l + i)%nat <$> find (a :: sub) t.
Proof.
  intros Ha. induction 1 as [|c l Hc _ IH].
  - simpl app. by destruct (find (a :: sub) t).
  - change (find (a :: sub) ((c :: l) ++ t)) with
      (if startswith (c :: l ++ t) (a :: sub) then Some 0%nat
       else S <$> find (a :: sub) (l ++ t)).
    simpl startswith. destruct (N.eqb_spec a c) as [->|_]; [congruence|].
    simpl. rewrite IH. by destruct (find (a :: sub) t).
Qed.

Lemma find_spaces_r (a : N) (sub t r : pystr) :
  Forall (λ c, is_space c = false) (a :: sub) → spaces r →
  find (a :: sub) (t ++ r) = find (a :: sub) t.
Proof.
  intros Hp Hr. induction t as [|b t IH].
  - simpl app. transitivity (@None nat); [|done].
    induction Hr as [|c r Hc _ IH]; [done|].
    change (find (a :: sub) (c :: r)) with
      (if startswith (c :: r) (a :: sub) then Some 0%nat
       else S <$> find (a :: sub) r).
    rewrite IH. simpl. inversion_clear Hp.
    destruct (N.eqb_spec a c) as [->|_]; [congruence | done].
  - change (find (a :: sub) ((b :: t) ++ r)) with
      (if startswith ((b :: t) ++ r) (a :: sub) then Some 0%nat
       else S <$> find (a :: sub) (t ++ r)).
    rewrite startswith_spaces_r, IH by done. done.
Qed.

Lemma str_in_find (sub s : pystr) : str_in sub s = contains sub s.
Proof.
  unfold contains. induction s as [|c s IH]; simpl.
  - by destruct (startswith [] sub).
  - destruct (startswith (c :: s) sub); [done|]. simpl. rewrite IH.
    by destruct (find sub s).
Qed.

Lemma split1_find (sub s : pystr) :
  split1 sub s =
    match find sub s with
    | Some i => [take i s; drop (i + length sub) s]
    | None => [s]
    end.
Proof.
  induction s as [|c s IH]; simpl.
  - by destruct (startswith [] sub).
  - destruct (startswith (c :: s) sub); [done|].
    rewrite IH. by destruct (find sub s).
Qed.

(** [find] returns the first position at which [sub] occurs. *)
Lemma find_first (sub s : pystr) (i : nat) :
  find sub s = Some i →
  startswith (drop i s) sub = true
  ∧ ∀ j, (j < i)%nat → startswith (drop j s) sub = false.
Proof.
  revert i. induction s as [|c s IH]; intros i; simpl.
  - destruct (startswith [] sub) eqn:Hs; [|done].
    intros [= <-]. split; [done | lia].
  - destruct (startswith (c :: s) sub) eqn:Hs.
    + intros [= <-]. split; [done | lia].
    + destruct (find sub s) as [k|]; [|done].
      intros [= <-]. destruct (IH k eq_refl) as [Hk Hlt]. split; [done|].
      intros [|j] Hj; [done|]. apply Hlt. lia.
Qed.

(** When the separator occurs, [split(sep, 1)] has exactly two parts, so
    that [parts[0]] and [parts[1]] are both defined. *)
Lemma split1_length (sep s : pystr) :
  str_in sep s = true → length (split1 sep s) = 2%nat.
Proof.
  rewrite str_in_find, split1_find. unfold contains.
  by destruct (find sep s).
Qed.

(** The string operations on sample inputs. *)
Example strip_sample : strip (u "  Foo , 	") = u "Foo ,".
Proof. reflexivity. Qed.

Example strip_ideographic_space : strip [12288; 65; 160]%N = u "A".
Proof. reflexivity. Qed.

Example removesuffix_sample :
  removesuffix (u "Foo,") (u ",") = u "Foo"
  ∧ removesuffix (u "Foo") (u ",") = u "Foo"
  ∧ strip_trailing_comma (u "報表，") = u "報表".
Proof. split_and!; reflexivity. Qed.

Example split1_sample :
  split1 (u "功能代碼:") (u "A功能代碼:B功能代碼:C") = [u "A"; u "B功能代碼:C"]
  ∧ split1 (u "功能代碼:") (u "ABC") = [u "ABC"].
Proof. split; reflexivity. Qed.

Example str_of_int_sample : str_of_int 0 = u "0" ∧ str_of_int 11 = u "11".
Proof. split; reflexivity. Qed.

Example is_image_name_sample :
  is_image_name (u "Shot.PNG") = true
  ∧ is_image_name (u "a.jpeg") = true
  ∧ is_image_name (u "notes.txt") = false
  ∧ is_image_name (u "png") = false.
Proof. split_and!; reflexivity. Qed.

Example sorted_sample :
  sorted [u "img/b.PNG"; u "img/10.png"; u "img/a.png"; u "img/2.png"]
  = [u "img/10.png"; u "img/2.png"; u "img/a.png"; u "img/b.PNG"].
Proof. reflexivity. Qed.

Example os_path_join_sample :
  os_path_join (u "tmp/x") (u "a.png") = u "tmp/x/a.png"
  ∧ os_path_join (u "tmp/x/") (u "a.png") = u "tmp/x/a.png".
Proof. split; reflexivity. Qed.

(** ** Decimal numerals *)

Lemma int_of_digits_from_pos (d : Decimal.uint) (acc : positive) :
  int_of_digits_from (N.pos acc) (digits d)
  = Some (N.pos (Pos.of_uint_acc d acc)).
Proof.
  revert acc. induction d; intros acc; simpl; try done;
    unfold digit_value; simpl;
    match goal with
    | |- int_of_digits_from ?n _ = Some (N.pos (Pos.of_uint_acc _ ?p)) =>
        replace n with (N.pos p) by lia
    end; apply IHd.
Qed.

Lemma int_of_digits_from_digits (d : Decimal.uint) :
  int_of_digits_from 0 (digits d) = Some (Pos.of_uint d).
Proof.
  induction d; simpl; try done; unfold digit_value; simpl;
    apply int_of_digits_from_pos.
Qed.

Lemma str_of_int_nonempty (n : N) : str_of_int n ≠ [].
Proof.
  unfold str_of_int. intros H.
  assert (N.to_uint n ≠ Decimal.Nil) as Hn.
  { destruct n; [done|]. apply DecimalPos.Unsigned.to_uint_nonnil. }
  by destruct (N.to_uint n).
Qed.

(** Reading back [str(n)] gives [n]. *)
Lemma int_of_digits_str_of_int (n : N) : int_of_digits (str_of_int n) = Some n.
Proof.
  pose proof (str_of_int_nonempty n) as Hne. unfold int_of_digits.
  destruct (str_of_int n) eqn:Hs; [done|]. rewrite <- Hs. unfold str_of_int.
  rewrite int_of_digits_from_digits.
  f_equal. apply (DecimalN.Unsigned.of_to n).
Qed.

Lemma numeric_suffix_base_number (idx : N) :
  numeric_suffix (MAIN_CHAPTER_NUMBER ++ u "." ++ str_of_int idx) = Some idx.
Proof. apply int_of_digits_str_of_int. Qed.

(** ** The configuration parser *)

Lemma truthy_iff (c : cell) : truthy c = true ↔ ¬ cell_empty c.
Proof. unfold cell_empty. destruct c as [[|]|]; simpl; intuition congruence. Qed.

Lemma truthy_false_iff (c : cell) : truthy c = false ↔ cell_empty c.
Proof. unfold cell_empty. destruct c as [[|]|]; simpl; intuition congruence. Qed.

Lemma py_str_cell_text (c : cell) : ¬ cell_empty c → py_str c = cell_text c.
Proof. destruct c; [done|]. intros H. destruct H. by left. Qed.

Lemma foldl_parse_row (rows : list (cell * cell)) (start : N)
    (acc : list (gmap string pystr)) :
  foldl parse_row acc (enumerate rows start)
  = acc ++ ((λ it, section_of_row it.1 it.2.1 it.2.2)
              <$> filter (λ it, ¬ cell_empty it.2.1) (enumerate rows start)).
Proof.
  revert start acc. induction rows as [|[a b] rows IH]; intros start acc.
  - simpl. by rewrite app_nil_r.
  - simpl enumerate. rewrite filter_cons. simpl foldl.
    destruct (truthy a) eqn:Ha; simpl negb; cbv iota.
    + rewrite decide_True by by apply truthy_iff.
      rewrite IH, fmap_cons, <- app_assoc. done.
    + rewrite decide_False by (simpl; intros H; by apply H, truthy_false_iff).
      apply IH.
Qed.

(** The loop is a filter followed by a map. *)
Lemma parse_excel_config_titled_rows (rows : list (cell * cell)) :
  parse_excel_config rows
  = (λ it, section_of_row it.1 it.2.1 it.2.2) <$> titled_rows rows.
Proof. apply (foldl_parse_row rows 1 []). Qed.

Lemma enumerate_fmap_snd {A} (l : list A) (start : N) :
  snd <$> enumerate l start = l.
Proof. revert start. induction l; intros; simpl; by f_equal. Qed.

Lemma enumerate_fst {A} (l : list A) (start : N) :
  fst <$> enumerate l start
  = (λ i, start + N.of_nat i)%N <$> seq 0 (length l).
Proof.
  revert start. induction l as [|x l IH]; intros start; [done|].
  simpl. f_equal; [lia|]. rewrite IH, <- fmap_S_seq, <- list_fmap_compose.
  apply list_fmap_ext. intros _ i _. simpl. lia.
Qed.

Lemma titled_rows_length (rows : list (cell * cell)) :
  length (titled_rows rows) = length (filter (λ r, ¬ cell_empty r.1) rows).
Proof.
  unfold titled_rows. generalize 1%N.
  induction rows as [|[a b] rows IH]; intros start; [done|].
  simpl enumerate. rewrite !filter_cons. simpl.
  destruct (decide (¬ cell_empty a)); simpl; by rewrite IH.
Qed.

(** The fields of the descriptor of a row. *)
Lemma section_of_row_base_number (idx : N) (a b : cell) :
  section_of_row idx a b !! "base_number"
  = Some (MAIN_CHAPTER_NUMBER ++ u "." ++ str_of_int idx).
Proof. unfold section_of_row. by destruct (str_in _ _). Qed.

Lemma section_of_row_query_condition (idx : N) (a b : cell) :
  section_of_row idx a b !! "query_condition"
  = Some (if truthy b then strip (py_str b) else u "（未提供）").
Proof. unfold section_of_row. by destruct (str_in _ _). Qed.

Lemma marker_no_space : Forall (λ c, is_space c = false) marker.
Proof. unfold marker. rewrite utf8_marker. repeat constructor. Qed.

Lemma find_marker_padded (l t r : pystr) :
  spaces l → spaces r →
  find marker (l ++ t ++ r) = (λ i, length l + i)%nat <$> find marker t.
Proof.
  intros Hl Hr. pose proof marker_no_space as Hm. revert Hm.
  unfold marker. rewrite utf8_marker. intros Hm.
  rewrite find_spaces_l by done. by rewrite find_spaces_r.
Qed.

(** Searching the marker in the cell text or in the trimmed cell text
    gives the same title and the same folder identifier. *)
Lemma title_folder_of_padded (l t r : pystr) :
  spaces l → spaces r → strip (l ++ t ++ r) = t →
  title_of_text (l ++ t ++ r)
  = (if str_in marker t
     then strip (strip_trailing_comma (strip (split1 marker t !!! 0%nat)))
     else t)
  ∧ folder_id_of_text (l ++ t ++ r)
    = (if str_in marker t then strip (split1 marker t !!! 1%nat) else []).
Proof.
  intros Hl Hr Ht.
  unfold title_of_text, folder_id_of_text, contains, text_before, text_after.
  rewrite str_in_find, split1_find, find_marker_padded by done.
  unfold contains. destruct (find marker t) as [i|] eqn:Hf; simpl.
  - apply find_bound in Hf. change (length marker) with 5%nat in *. split.
    + rewrite take_app_add, take_app_le by lia.
      by rewrite strip_spaces_l.
    + rewrite <- Nat.add_assoc, drop_app_add, drop_app_le by lia.
      by rewrite strip_spaces_r.
  - done.
Qed.

Lemma section_of_row_title_folder (idx : N) (a b : cell) :
  ¬ cell_empty a →
  section_of_row idx a b !! "title" = Some (title_of_text (cell_text a))
  ∧ section_of_row idx a b !! "folder"
    = Some (folder_id_of_text (cell_text a)).
Proof.
  intros Ha. rewrite <- (py_str_cell_text a Ha).
  destruct (strip_split (py_str a)) as (l & r & Hraw & Hl & Hr).
  destruct (title_folder_of_padded l (strip (py_str a)) r Hl Hr) as [Ht Hf];
    [by rewrite <- Hraw|].
  rewrite <- Hraw in Ht, Hf. rewrite Ht, Hf.
  unfold section_of_row, strip_trailing_comma.
  by destruct (str_in _ _).
Qed.

Lemma titled_rows_Forall (rows : list (cell * cell)) :
  Forall (λ it, ¬ cell_empty it.2.1) (titled_rows rows).
Proof. apply Forall_forall. intros it Hit. by apply list_elem_of_filter in Hit as [? _]. Qed.

(** Every descriptor, paired with the row it was built from. *)
Lemma parse_excel_config_Forall2 (R : N * (cell * cell) → gmap string pystr → Prop)
    (rows : list (cell * cell)) :
  (∀ idx a b, ¬ cell_empty a → R (idx, (a, b)) (section_of_row idx a b)) →
  Forall2 R (titled_rows rows) (parse_excel_config rows).
Proof.
  intros HR. rewrite parse_excel_config_titled_rows.
  apply Forall2_fmap_r, Forall_Forall2_diag.
  eapply Forall_impl; [apply titled_rows_Forall|].
  intros [idx [a b]] Ha. by apply HR.
Qed.

(** C2: for every sheet, the parser produces exactly one descriptor per
    row whose title cell (column A) is non-empty, in the order of the
    rows, and none for a row whose title cell is empty or absent: the
    result is the list of the descriptors of the titled rows.  Its
    length is the number of titled rows, and it is non-empty as soon as
    one row is titled. *)
Theorem parse_one_descriptor_per_titled_row (rows : list (cell * cell)) :
  parse_excel_config rows
  = (λ it, section_of_row it.1 it.2.1 it.2.2) <$> titled_rows rows
  ∧ length (parse_excel_config rows)
    = length (filter (λ r, ¬ cell_empty r.1) rows)
  ∧ ((∃ r, r ∈ rows ∧ ¬ cell_empty r.1) → parse_excel_config rows ≠ []).
Proof.
  pose proof (parse_excel_config_titled_rows rows) as Heq.
  assert (length (parse_excel_config rows)
          = length (filter (λ r, ¬ cell_empty r.1) rows)) as Hlen.
  { by rewrite Heq, length_fmap, titled_rows_length. }
  split_and!; [done..|].
  intros (r & Hr & Hne) Hnil. rewrite Hnil in Hlen. simpl in Hlen.
  symmetry in Hlen. apply length_zero_iff_nil in Hlen.
  assert (r ∈ filter (λ r, ¬ cell_empty r.1) rows) as Hin
    by by apply list_elem_of_filter.
  rewrite Hlen in Hin. by apply not_elem_of_nil in Hin.
Qed.

Lemma parse_one_descriptor_per_titled_row_witness :
  parse_excel_config [(None, None); (Some (u "A"), Some (u "x"))] ≠ [].
Proof.
  apply (proj2 (proj2 (parse_one_descriptor_per_titled_row
                         [(None, None); (Some (u "A"), Some (u "x"))]))).
  exists (Some (u "A"), Some (u "x")). split.
  - apply list_elem_of_further, list_elem_of_here.
  - intros [H|H]; discriminate H.
Defined.


(** C7: for every row with a non-empty title cell, in order, the
    query condition of the descriptor is the trimmed text of column B,
    and the sentinel when column B is empty. *)
Theorem query_condition_of_column_B (rows : list (cell * cell)) :
  Forall2
    (λ it d, d !! "query_condition" = Some (query_condition_of_cell it.2.2))
    (titled_rows rows) (parse_excel_config rows).
Proof.
  apply parse_excel_config_Forall2. intros idx a b _.
  rewrite section_of_row_query_condition. f_equal.
  unfold query_condition_of_cell, sentinel.
  destruct (truthy b) eqn:Hb.
  - apply truthy_iff in Hb. rewrite decide_False by done.
    by rewrite py_str_cell_text.
  - apply truthy_false_iff in Hb. by rewrite decide_True.
Qed.

(** C10: there is a sheet whose column B cell is non-empty and holds
    only white space for which the query condition is the empty string
    and not the sentinel.  The sentinel is substituted exactly when the
    raw cell value is falsy; a text that trims to nothing is kept. *)
Theorem whitespace_only_query_condition :
  (∃ a b : cell,
      ¬ cell_empty b ∧ spaces (cell_text b)
      ∧ (λ d, d !! "query_condition") <$> parse_excel_config [(a, b)]
        = [Some []]
      ∧ [] ≠ sentinel)
  ∧ ∀ (idx : N) (a b : cell),
      section_of_row idx a b !! "query_condition"
      = Some (if truthy b then strip (py_str b) else sentinel).
Proof.
  split.
  - exists (Some (u "A")), (Some (u " ")). split_and!.
    + intros [H|H]; discriminate H.
    + by repeat constructor.
    + reflexivity.
    + discriminate.
  - intros. apply section_of_row_query_condition.
Qed.

(** ** Numbering of the descriptors *)

Lemma elem_of_enumerate {A} (l : list A) (start k : N) (x : A) :
  (k, x) ∈ enumerate l start →
  (start ≤ k)%N ∧ l !! N.to_nat (k - start) = Some x.
Proof.
  revert start. induction l as [|y l IH]; intros start; simpl.
  - intros H. by apply not_elem_of_nil in H.
  - intros [[= -> ->]|Hin]%elem_of_cons.
    + split; [lia|]. by rewrite N.sub_diag.
    + apply IH in Hin as [Hle Hl]. split; [lia|].
      replace (N.to_nat (k - start)) with (S (N.to_nat (k - (start + 1))))
        by lia.
      done.
Qed.

Lemma filter_enumerate_sorted {A} (P : N * A → Prop) `{!∀ x, Decision (P x)}
    (l : list A) (start : N) :
  Forall (λ k, start ≤ k)%N (fst <$> filter P (enumerate l start))
  ∧ StronglySorted N.lt (fst <$> filter P (enumerate l start)).
Proof.
  revert start. induction l as [|y l IH]; intros start; simpl.
  - split; constructor.
  - destruct (IH (start + 1)%N) as [Hall Hsorted].
    assert (Forall (λ k, start < k)%N
              (fst <$> filter P (enumerate l (start + 1)))) as Hlt.
    { eapply Forall_impl; [exact Hall|]. intros k Hk. simpl in Hk. lia. }
    rewrite filter_cons. destruct (decide (P (start, y))); simpl.
    + split; constructor; try done; try lia.
      eapply Forall_impl; [exact Hlt|]. intros k Hk. simpl in Hk. lia.
    + split; [|done].
      eapply Forall_impl; [exact Hlt|]. intros k Hk. simpl in Hk. lia.
Qed.

Lemma suffixes_parse_excel_config (rows : list (cell * cell)) :
  suffixes (parse_excel_config rows) = (λ it, Some it.1) <$> titled_rows rows.
Proof.
  unfold suffixes. rewrite parse_excel_config_titled_rows.
  rewrite <- list_fmap_compose. apply list_fmap_ext. intros _ [idx [a b]] _.
  simpl. rewrite section_of_row_base_number. simpl.
  apply numeric_suffix_base_number.
Qed.

Lemma titled_rows_all (rows : list (cell * cell)) :
  (∀ r, r ∈ rows → ¬ cell_empty r.1) → titled_rows rows = enumerate rows 1.
Proof.
  unfold titled_rows. generalize 1%N.
  induction rows as [|r rows IH]; intros start Hall; [done|].
  simpl. rewrite filter_cons, decide_True.
  - f_equal. apply IH. intros r' Hr'. apply Hall. by right.
  - simpl. apply Hall. by left.
Qed.

(** C4, as the design document states it, fails: a skipped row still
    advances the counter, so the descriptor of the second row of a
    sheet whose first title cell is empty is numbered 2, not 1. *)
Lemma numbered_by_output_position_fails :
  ¬ numbered_by_output_position [(None, None); (Some (u "A"), None)].
Proof. unfold numbered_by_output_position. vm_compute. discriminate. Qed.

(** C4, amended: the numeric suffix of [base_number] is the 1-based
    position of the descriptor's row among all the data rows of the
    sheet, skipped rows included.  The suffixes are therefore strictly
    increasing, and they read 1, 2, ..., n when no title cell is empty. *)
Theorem base_number_is_row_position (rows : list (cell * cell)) :
  suffixes (parse_excel_config rows) = (λ it, Some it.1) <$> titled_rows rows
  ∧ (∀ k r, (k, r) ∈ titled_rows rows →
       (1 ≤ k)%N ∧ rows !! (N.to_nat k - 1)%nat = Some r)
  ∧ StronglySorted N.lt (fst <$> titled_rows rows)
  ∧ ((∀ r, r ∈ rows → ¬ cell_empty r.1) → numbered_by_output_position rows).
Proof.
  split_and!.
  - apply suffixes_parse_excel_config.
  - intros k r [_ Hin]%list_elem_of_filter.
    apply elem_of_enumerate in Hin as [Hle Hl]. split; [done|].
    by replace (N.to_nat k - 1)%nat with (N.to_nat (k - 1)) by lia.
  - apply filter_enumerate_sorted.
  - intros Hall. unfold numbered_by_output_position.
    rewrite suffixes_parse_excel_config.
    rewrite parse_excel_config_titled_rows, length_fmap.
    rewrite (titled_rows_all rows Hall).
    replace (length (enumerate rows 1)) with (length rows)
      by (by rewrite <- (enumerate_fmap_snd rows 1) at 1; rewrite length_fmap).
    transitivity (Some <$> (fst <$> enumerate rows (1 : N))).
    { by rewrite <- list_fmap_compose. }
    rewrite enumerate_fst, <- fmap_S_seq, <- !list_fmap_compose.
    apply list_fmap_ext. intros _ i _. simpl. f_equal. lia.
Qed.

Lemma base_number_is_row_position_witness :
  numbered_by_output_position
    [(Some (u "A"), None); (Some (u "B功能代碼:02"), Some (u "ID > 5"))]
  ∧ (2%N, (Some (u "A"), None : cell))
      ∈ titled_rows [(None, None); (Some (u "A"), None)]
  ∧ [(None : cell, None : cell); (Some (u "A"), None)] !! (N.to_nat 2 - 1)%nat
    = Some (Some (u "A"), None).
Proof.
  split.
  - apply (proj2 (proj2 (proj2 (base_number_is_row_position
      [(Some (u "A"), None); (Some (u "B功能代碼:02"), Some (u "ID > 5"))])))).
    intros r [->|[->|H]%elem_of_cons]%elem_of_cons.
    + intros [H|H]; discriminate H.
    + intros [H|H]; discriminate H.
    + by apply not_elem_of_nil in H.
  - assert ((2%N, (Some (u "A"), @None pystr))
            ∈ titled_rows [(None, None); (Some (u "A"), None)]) as Hin.
    { unfold titled_rows. simpl enumerate.
      rewrite filter_cons, decide_False by (simpl; intros H; apply H; by left).
      rewrite filter_cons, decide_True by (simpl; intros [H|H]; discriminate H).
      apply list_elem_of_here. }
    split; [exact Hin|].
    exact (proj2 (proj1 (proj2 (base_number_is_row_position
             [(None, None); (Some (u "A"), None)])) _ _ Hin)).
Defined.

(** ** Document mutations only append *)

Lemma appends_ret {A} (a : A) : appends (mret a) [].
Proof. intros doc. exists a. unfold mret, M_ret. by rewrite app_nil_r. Qed.

Lemma appends_bind {A B} (m : M A) (k : A → M B) (d1 d2 : list block) :
  appends m d1 → (∀ a, appends (k a) d2) → appends (m ≫= k) (d1 ++ d2).
Proof.
  intros Hm Hk doc. destruct (Hm doc) as [a Ha].
  destruct (Hk a (doc ++ d1)) as [b Hb]. exists b.
  unfold mbind, M_bind. by rewrite Ha, Hb, app_assoc.
Qed.

Lemma alter_last {A} (f : A → A) (l : list A) (x : A) :
  alter f (length l) (l ++ [x]) = l ++ [f x].
Proof. by rewrite alter_app_r_alt, Nat.sub_diag by lia. Qed.

Lemma last_paragraph_from_snoc (i : nat) (doc : document) (p : paragraph) :
  last_paragraph_from i (doc ++ [Para p]) = Some (i + length doc)%nat.
Proof.
  revert i. induction doc as [|b doc IH]; intros i; simpl.
  - f_equal. lia.
  - rewrite IH. f_equal. lia.
Qed.

Lemma fonted_new_paragraph (text : pystr) (st : style) :
  set_font_for_runs (new_paragraph text st)
  = Paragraph st (fonted_runs text) None.
Proof. by destruct text. Qed.

Lemma add_paragraph_with_font_eq (text : pystr) (st : style) (doc : document) :
  add_paragraph_with_font text st doc
  = (Return (length doc), doc ++ [Para (Paragraph st (fonted_runs text) None)]).
Proof.
  unfold add_paragraph_with_font, doc_add_paragraph, update_paragraph,
    mbind, M_bind, mret, M_ret.
  by rewrite alter_last, <- fonted_new_paragraph.
Qed.

Lemma add_paragraph_with_font_appends (text : pystr) :
  appends (add_paragraph_with_font text DefaultStyle) [paragraph_block text].
Proof. intros doc. eexists. apply add_paragraph_with_font_eq. Qed.

Lemma add_heading_with_font_appends (text : pystr) (level : nat) :
  appends (add_heading_with_font text level) [heading_block level text].
Proof.
  intros doc. eexists.
  apply (add_paragraph_with_font_eq text (Heading level) doc).
Qed.

Lemma doc_add_page_break_appends : appends doc_add_page_break [page_break_block].
Proof. intros doc. by eexists. Qed.

(** A warning paragraph, centred through its handle. *)
Lemma centered_warning_eq (text : pystr) (doc : document) :
  (p ← add_paragraph_with_font text DefaultStyle;
   update_paragraph p (set_alignment CENTER)) doc
  = (Return (), doc ++ [centered_paragraph_block text]).
Proof.
  unfold mbind, M_bind. rewrite add_paragraph_with_font_eq.
  unfold update_paragraph. by rewrite alter_last.
Qed.

Lemma bind_eq {A B} (m : M A) (k : A → M B) (doc : document) :
  (m ≫= k) doc
  = match m doc with
    | (Return a, doc') => k a doc'
    | (Raise e, doc') => (Raise e, doc')
    end.
Proof. reflexivity. Qed.

Lemma appends_unit (m : M ()) (delta : list block) (doc : document) :
  appends m delta → m doc = (Return (), doc ++ delta).
Proof. intros H. by destruct (H doc) as [[] ->]. Qed.

Lemma for_each_appends {A} (l : list A) (body : A → M ())
    (delta : A → list block) :
  (∀ x, x ∈ l → appends (body x) (delta x)) →
  appends (for_each l body) (l ≫= delta).
Proof.
  induction l as [|x l IH]; intros Hbody; simpl.
  - apply appends_ret.
  - apply appends_bind.
    + apply Hbody. by left.
    + intros _. apply IH. intros y Hy. apply Hbody. by right.
Qed.

Lemma skeleton_slots (title folder_id query_condition : pystr) :
  omap slot_index (skeleton title folder_id query_condition) = seq 0 11.
Proof. reflexivity. Qed.

Lemma sample_world_lists_or_missing (path : pystr) :
  lists_or_missing sample_world path.
Proof.
  intros e. simpl. destruct (bool_decide _); [done|]. by intros [= <-].
Qed.

(** ** The section assembler *)

Section assembler.

Context (w : world).

(** One image slot: the nested function appends what the per-slot rule
    says, and never raises. *)
Lemma add_picture_with_uniform_width_eq (images : list pystr)
    (i : nat) (doc : document) :
  add_picture_with_uniform_width w images i doc
  = (Return (), doc ++ slot_blocks w images i).
Proof.
  unfold add_picture_with_uniform_width, slot_blocks.
  destruct (Nat.ltb_spec i (length images)) as [Hlt|Hge].
  - destruct (lookup_lt_is_Some_2 images i Hlt) as [path Hpath].
    rewrite Hpath, (list_lookup_total_correct _ _ _ Hpath).
    unfold try_except, mbind, M_bind, doc_add_picture.
    destruct (add_picture_failure w path) as [[partial e]|].
    + unfold is_Exception.
      pose proof (centered_warning_eq (image_error_warning i e) (doc ++ partial))
        as Hw.
      unfold mbind, M_bind in Hw. unfold image_error_warning in Hw.
      rewrite Hw. by rewrite <- app_assoc.
    + unfold doc_last_paragraph. rewrite last_paragraph_from_snoc.
      unfold update_paragraph. simpl. by rewrite alter_last.
  - rewrite (lookup_ge_None_2 images i) by lia.
    apply (centered_warning_eq (missing_image_warning i)).
Qed.

Lemma add_picture_with_uniform_width_appends (images : list pystr)
    (i : nat) :
  appends (add_picture_with_uniform_width w images i) (slot_blocks w images i).
Proof. intros doc. eexists. apply add_picture_with_uniform_width_eq. Qed.

Ltac appends_step :=
  lazymatch goal with
  | |- appends (_ ≫= _) _ => eapply appends_bind; [|intros ?]
  | |- appends (add_paragraph_with_font _ _) _ =>
      apply add_paragraph_with_font_appends
  | |- appends (add_heading_with_font _ _) _ =>
      apply add_heading_with_font_appends
  | |- appends doc_add_page_break _ => apply doc_add_page_break_appends
  | |- appends (add_picture_with_uniform_width _ _ _) _ =>
      apply add_picture_with_uniform_width_appends
  end.

(** The call as a whole: an error of the listing other than
    [FileNotFoundError] propagates before anything is appended;
    otherwise the call returns normally with the section appended. *)
Lemma append_section_eq (info : gmap string pystr)
    (image_folder : pystr) (doc : document) :
  append_section w info image_folder doc
  = match os_listdir w image_folder with
    | Raise e =>
        if is_FileNotFoundError e
        then (Return (), doc ++ section_delta w info image_folder)
        else (Raise e, doc)
    | Return _ => (Return (), doc ++ section_delta w info image_folder)
    end.
Proof.
  cbv beta zeta delta [append_section]. rewrite bind_eq.
  unfold try_except at 1. rewrite bind_eq.
  unfold section_delta, folder_warning, image_set, lift_result.
  destruct (os_listdir w image_folder) as [names|e].
  - unfold mret, M_ret.
    erewrite appends_unit; cycle 1.
    { repeat appends_step. }
    unfold render, skeleton, title_of, folder_id_of, query_condition_of.
    cbn [mbind list_bind app]. by rewrite app_nil_r.
  - destruct (is_FileNotFoundError e); [|done].
    rewrite bind_eq, add_paragraph_with_font_eq. unfold mret, M_ret.
    erewrite appends_unit; cycle 1.
    { repeat appends_step. }
    unfold render, skeleton, title_of, folder_id_of, query_condition_of,
      missing_folder_warning.
    cbn [mbind list_bind app]. by rewrite app_nil_r, <- app_assoc.
Qed.

Lemma append_section_appends (info : gmap string pystr)
    (image_folder : pystr) :
  lists_or_missing w image_folder →
  appends (append_section w info image_folder)
    (section_delta w info image_folder).
Proof.
  intros Hok doc. exists (). rewrite append_section_eq.
  specialize (Hok).
  destruct (os_listdir w image_folder) as [names|e] eqn:Hls; [done|].
  by rewrite (Hok e).
Qed.

(** C1, amended: for every descriptor and every image folder (present
    or missing), one call of [append_section] appends the fixed skeleton
    with its 11 image slots, indices 0 to 10, in order.  A slot within
    the bounds of the ImageSet whose image is inserted successfully
    contributes that image at the uniform width, centre-aligned; a slot
    within bounds whose insertion raises contributes a centre-aligned
    warning naming the slot number and the error; a slot out of bounds
    contributes a centre-aligned warning naming the slot number i+1.
    The number of slots is 11 whatever the number of images. *)
Theorem eleven_image_slots (info : gmap string pystr)
    (image_folder : pystr) (doc : document) :
  lists_or_missing w image_folder →
  let images := image_set w image_folder in
  let items :=
    skeleton (title_of info) (folder_id_of info) (query_condition_of info) in
  append_section w info image_folder doc
  = (Return (),
     doc ++ folder_warning w info image_folder
         ++ render (slot_blocks w images) items)
  ∧ omap slot_index items = seq 0 11
  ∧ (∀ i doc',
       add_picture_with_uniform_width w images i doc'
       = (Return (), doc' ++ slot_blocks w images i))
  ∧ (∀ i path,
       images !! i = Some path → add_picture_failure w path = None →
       slot_blocks w images i = [picture_block path])
  ∧ (∀ i path partial e,
       images !! i = Some path →
       add_picture_failure w path = Some (partial, e) →
       slot_blocks w images i
       = partial ++ [centered_paragraph_block (image_error_warning i e)])
  ∧ (∀ i,
       (length images ≤ i)%nat →
       slot_blocks w images i
       = [centered_paragraph_block (missing_image_warning i)]).
Proof.
  intros Hok images items. split_and!.
  - by apply appends_unit, append_section_appends.
  - reflexivity.
  - intros. apply add_picture_with_uniform_width_eq.
  - intros i path Hi Hp. unfold slot_blocks. by rewrite Hi, Hp.
  - intros i path partial e Hi Hp. unfold slot_blocks. by rewrite Hi, Hp.
  - intros i Hi. unfold slot_blocks. by rewrite lookup_ge_None_2.
Qed.

Lemma folder_missing_lists_or_missing (image_folder : pystr) :
  folder_missing w image_folder → lists_or_missing w image_folder.
Proof. intros (e & He & Hfnf) e'. rewrite He. by intros [= <-]. Qed.

Lemma section_delta_missing (info : gmap string pystr)
    (image_folder : pystr) :
  folder_missing w image_folder →
  section_delta w info image_folder
  = [paragraph_block (missing_folder_warning (folder_id_of info))]
    ++ render (λ i, [centered_paragraph_block (missing_image_warning i)])
         (skeleton (title_of info) (folder_id_of info)
            (query_condition_of info)).
Proof.
  intros (e & He & Hfnf).
  unfold section_delta, folder_warning, image_set. by rewrite He, Hfnf.
Qed.

(** C5: a missing image folder yields a visible warning paragraph
    naming the folder identifier, an empty ImageSet, and the full
    section (all 11 slots as missing-image warnings); an image whose
    insertion raises yields a centre-aligned warning paragraph naming
    the slot number and the error.  In both cases the call returns
    normally, and so does the loop over all sections: every section,
    current and subsequent, is assembled. *)
Theorem missing_folder_and_bad_image_do_not_abort
    (info : gmap string pystr) (image_folder : pystr) (doc : document) :
  (folder_missing w image_folder →
     image_set w image_folder = []
     ∧ append_section w info image_folder doc
       = (Return (),
          doc ++ [paragraph_block (missing_folder_warning (folder_id_of info))]
              ++ render (λ i, [centered_paragraph_block (missing_image_warning i)])
                   (skeleton (title_of info) (folder_id_of info)
                      (query_condition_of info))))
  ∧ (∀ images i path partial e doc',
       images !! i = Some path →
       add_picture_failure w path = Some (partial, e) →
       add_picture_with_uniform_width w images i doc'
       = (Return (),
          doc' ++ partial
               ++ [centered_paragraph_block (image_error_warning i e)]))
  ∧ (∀ jobs : list (gmap string pystr * pystr),
       (∀ job, job ∈ jobs → lists_or_missing w job.2) →
       for_each jobs (λ job, append_section w job.1 job.2) doc
       = (Return (), doc ++ (jobs ≫= λ job, section_delta w job.1 job.2))).
Proof.
  split_and!.
  - intros Hmiss. split.
    + destruct Hmiss as (e & He & _). unfold image_set. by rewrite He.
    + rewrite <- (section_delta_missing info image_folder Hmiss).
      apply appends_unit, append_section_appends.
      by apply folder_missing_lists_or_missing.
  - intros images i path partial e doc' Hi Hp.
    rewrite add_picture_with_uniform_width_eq. unfold slot_blocks.
    by rewrite Hi, Hp.
  - intros jobs Hjobs. apply appends_unit.
    apply (for_each_appends jobs _ (λ job, section_delta w job.1 job.2)).
    intros job Hjob. by apply append_section_appends, Hjobs.
Qed.

(** C8: [append_section] only appends.  Whatever the document, the
    call leaves it followed by a delta that does not depend on the
    document (the delta is what the call appends to the empty
    document); the prior content is kept as it was, in place.  Two
    calls with the same descriptor and folder append the delta twice,
    so the length grows by twice the length of the delta. *)
Theorem append_section_strictly_additive
    (info : gmap string pystr) (image_folder : pystr) (doc : document) :
  let outcome := (append_section w info image_folder []).1 in
  let delta := (append_section w info image_folder []).2 in
  let twice :=
    append_section w info image_folder;; append_section w info image_folder in
  append_section w info image_folder doc = (outcome, doc ++ delta)
  ∧ take (length doc) (append_section w info image_folder doc).2 = doc
  ∧ twice doc = (outcome, doc ++ delta ++ delta)
  ∧ length (twice doc).2 = (length doc + 2 * length delta)%nat.
Proof.
  intros outcome delta twice.
  assert (∀ d, append_section w info image_folder d = (outcome, d ++ delta))
    as Hone.
  { intros d. subst outcome delta. rewrite !append_section_eq.
    destruct (os_listdir w image_folder) as [names|e]; simpl; [done|].
    destruct (is_FileNotFoundError e); simpl; [done|]. by rewrite app_nil_r. }
  assert (twice doc = (outcome, doc ++ delta ++ delta)) as Htwice.
  { subst twice. rewrite bind_eq, Hone.
    destruct outcome as [[]|e] eqn:Hout.
    - by rewrite Hone, app_assoc.
    - assert (delta = []) as ->; [|by rewrite !app_nil_r].
      subst outcome delta. rewrite append_section_eq in Hout |- *.
      destruct (os_listdir w image_folder) as [names|e']; [done|].
      by destruct (is_FileNotFoundError e'). }
  split_and!; [done| |done|].
  - rewrite Hone. simpl. by rewrite take_app_length.
  - rewrite Htwice. simpl. rewrite !length_app. lia.
Qed.

(** C9: when the image folder is missing, the folder warning is the
    first block the call appends; the page break and the level-2
    heading that open the section come after it. *)
Theorem missing_folder_warning_precedes_section
    (info : gmap string pystr) (image_folder : pystr) (doc : document) :
  folder_missing w image_folder →
  ∃ rest,
    append_section w info image_folder doc
    = (Return (),
       doc ++ [paragraph_block (missing_folder_warning (folder_id_of info));
               page_break_block;
               heading_block 2
                 (title_of info ++ u "，功能代碼:" ++ folder_id_of info)]
           ++ rest).
Proof.
  intros Hmiss. eexists.
  rewrite (appends_unit _ _ doc
             (append_section_appends info image_folder
                (folder_missing_lists_or_missing _ Hmiss))).
  rewrite section_delta_missing by done. reflexivity.
Qed.

End assembler.

(** ** The sample request *)

(** C1, as stated, fails: a slot within the bounds of the ImageSet
    whose image cannot be inserted receives a warning paragraph, not
    the image.  In the sample folder the second image is unreadable. *)
Lemma eleven_slots_two_cases_fails :
  ¬ eleven_slots_two_cases sample_world sample_info (u "img/001").
Proof.
  intros H. specialize (H []). rewrite append_section_eq in H.
  vm_compute in H. discriminate H.
Qed.

Lemma eleven_image_slots_witness :
  let images := [u "img/001/a.png"; u "img/001/b.PNG"] in
  append_section sample_world sample_info (u "img/001") [Table 0]
  = (Return (),
     [Table 0]
       ++ render (slot_blocks sample_world images)
            (skeleton (u "Title") (u "001") (u "ID > 5")))
  ∧ slot_blocks sample_world images 0 = [picture_block (u "img/001/a.png")]
  ∧ slot_blocks sample_world images 1
    = [centered_paragraph_block
         (u "（警告：處理第 2 張圖片時發生錯誤: cannot identify image file）")]
  ∧ slot_blocks sample_world images 2
    = [centered_paragraph_block (u "（警告：此處缺少第 3 張圖片）")].
Proof.
  pose proof (eleven_image_slots sample_world sample_info (u "img/001")
                [Table 0] (sample_world_lists_or_missing _))
    as (Hsection & _ & _ & Hpicture & Herror & Hmissing).
  split_and!.
  - exact Hsection.
  - apply (Hpicture 0%nat (u "img/001/a.png")); reflexivity.
  - apply (Herror 1%nat (u "img/001/b.PNG") []
             (Exn OtherException (u "cannot identify image file")));
      reflexivity.
  - apply (Hmissing 2%nat). simpl. lia.
Defined.

Lemma missing_folder_and_bad_image_do_not_abort_witness :
  (image_set sample_world (u "img/002") = []
   ∧ append_section sample_world sample_info (u "img/002") []
     = (Return (),
        [] ++ [paragraph_block (missing_folder_warning (u "001"))]
           ++ render (λ i, [centered_paragraph_block (missing_image_warning i)])
                (skeleton (u "Title") (u "001") (u "ID > 5"))))
  ∧ add_picture_with_uniform_width sample_world
      [u "img/001/a.png"; u "img/001/b.PNG"] 1 []
    = (Return (),
       [] ++ []
          ++ [centered_paragraph_block
                (image_error_warning 1
                   (Exn OtherException (u "cannot identify image file")))])
  ∧ for_each [(sample_info, u "img/002"); (sample_info, u "img/001")]
      (λ job, append_section sample_world job.1 job.2) []
    = (Return (),
       [] ++ section_delta sample_world sample_info (u "img/002")
          ++ section_delta sample_world sample_info (u "img/001") ++ []).
Proof.
  pose proof (missing_folder_and_bad_image_do_not_abort sample_world
                sample_info (u "img/002") []) as (Hmissing & Himage & Hloop).
  split_and!.
  - apply Hmissing. eexists. split; reflexivity.
  - apply Hmissing. eexists. split; reflexivity.
  - apply (Himage _ 1%nat (u "img/001/b.PNG") [] _ []); reflexivity.
  - apply (Hloop [(sample_info, u "img/002"); (sample_info, u "img/001")]).
    intros job _. apply sample_world_lists_or_missing.
Defined.

Lemma missing_folder_warning_precedes_section_witness :
  ∃ rest,
    append_section sample_world sample_info (u "img/002") [Table 0]
    = (Return (),
       [Table 0]
         ++ [paragraph_block (missing_folder_warning (u "001"));
             page_break_block;
             heading_block 2 (u "Title，功能代碼:001")]
         ++ rest).
Proof.
  apply (missing_folder_warning_precedes_section sample_world sample_info
           (u "img/002") [Table 0]).
  eexists. split; reflexivity.
Defined.

(** ** The end-to-end scenarios *)

(** One row with a folder of eleven images: one level-2 heading, eleven
    images at the uniform width, five page breaks, no warning. *)
Example scenario_eleven_images :
  let doc :=
    (append_section eleven_images_world sample_info (u "img/001") []).2 in
  doc !! 1%nat = Some (heading_block 2 (u "Title，功能代碼:001"))
  ∧ count is_picture doc = 11%nat
  ∧ List.filter is_picture doc
    = picture_block
        <$> [u "img/001/01.png"; u "img/001/02.JPG"; u "img/001/03.jpeg";
             u "img/001/04.png"; u "img/001/05.png"; u "img/001/06.png";
             u "img/001/07.png"; u "img/001/08.png"; u "img/001/09.png";
             u "img/001/10.png"; u "img/001/11.png"]
  ∧ count is_page_break doc = 5%nat
  ∧ count is_warning doc = 0%nat.
Proof. vm_compute. split_and!; reflexivity. Qed.

(** The same row with its folder missing: one folder warning, eleven
    slot warnings, no image. *)
Example scenario_missing_folder :
  let doc :=
    (append_section eleven_images_world sample_info (u "img/002") []).2 in
  count is_warning doc = 12%nat
  ∧ count is_picture doc = 0%nat
  ∧ count is_page_break doc = 5%nat
  ∧ length doc = 37%nat.
Proof. vm_compute. split_and!; reflexivity. Qed.

(** ** The request handler *)

Lemma parse_excel_config_folder (rows : list (cell * cell))
    (s : gmap string pystr) :
  s ∈ parse_excel_config rows → s !! "folder" = Some (folder_id_of s).
Proof.
  rewrite parse_excel_config_titled_rows.
  intros ([idx [a b]] & -> & _)%list_elem_of_fmap. simpl.
  unfold folder_id_of, section_of_row. by destruct (str_in _ _).
Qed.

Lemma getitem_bind_eq {B} (d : gmap string pystr) (key : string) (v : pystr)
    (k : pystr → M B) (doc : document) :
  d !! key = Some v → (getitem d key ≫= k) doc = k v doc.
Proof. intros H. unfold getitem. by rewrite H. Qed.



(** * Further properties of the code *)

(** ** Trimming *)

Lemma lstrip_no_lead (s : pystr) (c : N) (t : pystr) :
  lstrip s = c :: t → is_space c = false.
Proof.
  induction s as [|a s IH]; simpl; [done|].
  destruct (is_space a) eqn:Ha; [done|]. by intros [= <- <-].
Qed.

Lemma lstrip_fixed (s : pystr) :
  (∀ c t, s = c :: t → is_space c = false) → lstrip s = s.
Proof.
  destruct s as [|c t]; [done|]. intros H. simpl. by rewrite (H c t).
Qed.

Lemma lstrip_idem (s : pystr) : lstrip (lstrip s) = lstrip s.
Proof.
  apply lstrip_fixed. intros c t H. by eapply lstrip_no_lead.
Qed.

Lemma rstrip_idem (s : pystr) : rstrip (rstrip s) = rstrip s.
Proof. unfold rstrip. by rewrite reverse_involutive, lstrip_idem. Qed.

Lemma strip_idem (s : pystr) : strip (strip s) = strip s.
Proof.
  unfold strip. set (a := lstrip s).
  assert (lstrip (rstrip a) = rstrip a) as ->; [|apply rstrip_idem].
  apply lstrip_fixed. intros c t Hc.
  destruct (rstrip_split a) as (r & Ha & _). rewrite Hc in Ha.
  by apply (lstrip_no_lead s c (t ++ r)).
Qed.

Lemma trimmed_strip (s : pystr) : trimmed (strip s).
Proof. apply strip_idem. Qed.

(** ** More on the configuration parser *)

(** X1: the title, the folder identifier and the query condition of
    every descriptor are free of white space at both ends. *)
Theorem parsed_fields_trimmed (rows : list (cell * cell)) :
  Forall
    (λ d, ∃ title folder_id query,
        d !! "title" = Some title ∧ d !! "folder" = Some folder_id
        ∧ d !! "query_condition" = Some query
        ∧ trimmed title ∧ trimmed folder_id ∧ trimmed query)
    (parse_excel_config rows).
Proof.
  rewrite parse_excel_config_titled_rows. apply Forall_fmap, Forall_forall.
  intros [idx [a b]] _. simpl. unfold section_of_row.
  destruct (str_in _ _); do 3 eexists; (split_and!; [reflexivity..| | |]);
    try apply trimmed_strip; try reflexivity;
    destruct (truthy b); try apply trimmed_strip; reflexivity.
Qed.

Lemma filter_none {A} (P : A → Prop) `{!∀ x, Decision (P x)} (l : list A) :
  Forall (λ x, ¬ P x) l → filter P l = [].
Proof.
  induction 1 as [|x l Hx _ IH]; [done|].
  by rewrite filter_cons, decide_False.
Qed.

Lemma enumerate_app {A} (l1 l2 : list A) (start : N) :
  enumerate (l1 ++ l2) start
  = enumerate l1 start ++ enumerate l2 (start + N.of_nat (length l1)).
Proof.
  revert start. induction l1 as [|x l1 IH]; intros start; simpl.
  - by rewrite N.add_0_r.
  - rewrite IH. do 3 f_equal. lia.
Qed.

(** X2: parsing is compositional.  The descriptors of a sheet made of
    two blocks of rows are those of the first block followed by those of
    the second block, numbered from where the first block ends; rows
    with an empty title at the end of a sheet change nothing. *)
Theorem parse_excel_config_app (rows1 rows2 : list (cell * cell)) :
  parse_excel_config (rows1 ++ rows2)
  = parse_excel_config rows1
    ++ foldl parse_row [] (enumerate rows2 (1 + N.of_nat (length rows1)))
  ∧ ((∀ r, r ∈ rows2 → cell_empty r.1) →
     parse_excel_config (rows1 ++ rows2) = parse_excel_config rows1).
Proof.
  assert (parse_excel_config (rows1 ++ rows2)
          = parse_excel_config rows1
            ++ foldl parse_row []
                 (enumerate rows2 (1 + N.of_nat (length rows1)))) as Happ.
  { unfold parse_excel_config. rewrite enumerate_app, foldl_app.
    rewrite (foldl_parse_row rows2 _ (foldl _ _ _)).
    by rewrite (foldl_parse_row rows2 _ []). }
  split; [done|]. intros Hempty. rewrite Happ, foldl_parse_row.
  rewrite filter_none; [by rewrite app_nil_r|].
  apply Forall_forall. intros [idx [a b]] Hin Hne. simpl in Hne.
  apply Hne, (Hempty (a, b)).
  rewrite <- (enumerate_fmap_snd rows2 (1 + N.of_nat (length rows1))).
  apply list_elem_of_fmap. by exists (idx, (a, b)).
Qed.

Lemma parse_excel_config_app_witness :
  parse_excel_config
    ([(Some (u "A"), None)] ++ [(None, Some (u "x")); (Some [], None)])
  = parse_excel_config [(Some (u "A"), None)].
Proof.
  apply (proj2 (parse_excel_config_app [(Some (u "A"), None)]
                  [(None, Some (u "x")); (Some [], None)])).
  intros r [->|[->|H]%elem_of_cons]%elem_of_cons.
  - by left.
  - by right.
  - by apply not_elem_of_nil in H.
Defined.

Lemma StronglySorted_lt_NoDup (l : list N) : StronglySorted N.lt l → NoDup l.
Proof.
  induction 1 as [|x l _ IH Hall]; constructor; [|done].
  intros Hin. rewrite Forall_forall in Hall. specialize (Hall x Hin). lia.
Qed.

(** X3: the [base_number] labels of the descriptors of a parse result
    are pairwise distinct. *)
Theorem base_numbers_distinct (rows : list (cell * cell)) :
  NoDup ((λ d, d !! "base_number") <$> parse_excel_config rows).
Proof.
  apply (NoDup_fmap_1 (λ o, o ≫= numeric_suffix)).
  rewrite <- list_fmap_compose.
  change (NoDup (suffixes (parse_excel_config rows))).
  rewrite suffixes_parse_excel_config.
  replace ((λ it : N * (cell * cell), Some it.1) <$> titled_rows rows)
    with (Some <$> (fst <$> titled_rows rows))
    by (by rewrite <- list_fmap_compose).
  apply (NoDup_fmap_2 Some), StronglySorted_lt_NoDup.
  apply filter_enumerate_sorted.
Qed.

(** ** The heading of a section read back as a title cell *)

Lemma lstrip_strip (s : pystr) : lstrip (strip s) = strip s.
Proof.
  unfold strip. apply lstrip_fixed. intros c t Hc.
  destruct (rstrip_split (lstrip s)) as (r & Ha & _). rewrite Hc in Ha.
  by apply (lstrip_no_lead s c (t ++ r)).
Qed.

Lemma trimmed_no_lead (s : pystr) (c : N) (t : pystr) :
  trimmed s → s = c :: t → is_space c = false.
Proof.
  intros Hs Hc. apply (lstrip_no_lead s c t).
  by rewrite <- Hs, lstrip_strip, Hs.
Qed.

Lemma strip_snoc (t : pystr) (c : N) :
  trimmed t → is_space c = false → strip (t ++ [c]) = t ++ [c].
Proof.
  intros Ht Hc. unfold strip.
  assert (lstrip (t ++ [c]) = t ++ [c]) as ->.
  { destruct t as [|a t']; simpl; [by rewrite Hc|].
    by rewrite (trimmed_no_lead (a :: t') a t' Ht). }
  unfold rstrip. rewrite reverse_snoc. simpl. rewrite Hc.
  by rewrite <- reverse_snoc, reverse_involutive.
Qed.

Lemma removesuffix_snoc_ne (t : pystr) (c d : N) :
  c ≠ d → removesuffix (t ++ [c]) [d] = t ++ [c].
Proof.
  intros Hne. unfold removesuffix, endswith. rewrite reverse_snoc. simpl.
  by destruct (N.eqb_spec d c) as [->|_].
Qed.

Lemma removesuffix_snoc (t : pystr) (c : N) : removesuffix (t ++ [c]) [c] = t.
Proof.
  unfold removesuffix, endswith. rewrite reverse_snoc. simpl.
  rewrite N.eqb_refl. simpl. rewrite length_app. simpl.
  replace (length t + 1 - 1)%nat with (length t) by lia.
  apply take_app_length.
Qed.

Lemma startswith_app_sep (p x rest : pystr) (c : N) :
  Forall (λ a, a ≠ c) p →
  startswith (x ++ c :: rest) p = startswith x p.
Proof.
  intros Hp. revert x. induction Hp as [|a p Ha _ IH]; intros x; [done|].
  destruct x as [|b x]; simpl.
  - by destruct (N.eqb_spec a c).
  - by rewrite IH.
Qed.

Lemma startswith_app_self (p s : pystr) : startswith (p ++ s) p = true.
Proof. induction p as [|a p IH]; simpl; [done|]. by rewrite N.eqb_refl. Qed.

Lemma find_after_sep (a : N) (sub x rest : pystr) (c : N) :
  Forall (λ a, a ≠ c) (a :: sub) →
  find (a :: sub) x = None →
  find (a :: sub) (x ++ c :: rest)
  = (λ i, length x + 1 + i)%nat <$> find (a :: sub) rest.
Proof.
  intros Hp. induction x as [|b x IH]; intros Hnone.
  - change (find (a :: sub) ([] ++ c :: rest)) with
      (if startswith (c :: rest) (a :: sub) then Some 0%nat
       else S <$> find (a :: sub) rest).
    simpl startswith. inversion_clear Hp as [|? ? Hac _].
    destruct (N.eqb_spec a c); [done|]. simpl.
    by destruct (find (a :: sub) rest).
  - change (find (a :: sub) (b :: x)) with
      (if startswith (b :: x) (a :: sub) then Some 0%nat
       else S <$> find (a :: sub) x) in Hnone.
    change (find (a :: sub) ((b :: x) ++ c :: rest)) with
      (if startswith ((b :: x) ++ c :: rest) (a :: sub) then Some 0%nat
       else S <$> find (a :: sub) (x ++ c :: rest)).
    rewrite startswith_app_sep by done.
    destruct (startswith (b :: x) (a :: sub)); [done|].
    destruct (find (a :: sub) x) eqn:Hx; [done|].
    rewrite IH by done. by destruct (find (a :: sub) rest).
Qed.

(** X4: the heading of a section, read back as a title cell, gives the
    title and the folder identifier it was built from, provided both are
    trimmed and the title does not itself contain the marker. *)
Theorem heading_round_trip (title folder_id : pystr) (idx : N) (b : cell) :
  trimmed title → trimmed folder_id → contains marker title = false →
  let heading := title ++ u "，功能代碼:" ++ folder_id in
  section_of_row idx (Some heading) b !! "title" = Some title
  ∧ section_of_row idx (Some heading) b !! "folder" = Some folder_id.
Proof.
  intros Ht Hf Hno heading.
  assert (¬ cell_empty (Some heading)) as Hne.
  { intros [H|H]; [done|]. injection H as H. by destruct title. }
  destruct (section_of_row_title_folder idx (Some heading) b Hne) as [-> ->].
  simpl cell_text. subst heading.
  change (title ++ u "，功能代碼:" ++ folder_id)
    with (title ++ 65292%N :: marker ++ folder_id).
  assert (find marker (title ++ 65292%N :: marker ++ folder_id)
          = Some (length title + 1 + 0)%nat) as Hfind.
  { unfold contains in Hno. revert Hno. unfold marker. rewrite utf8_marker.
    intros Hno. rewrite find_after_sep.
    - done.
    - repeat constructor; done.
    - by destruct (find _ title). }
  unfold title_of_text, folder_id_of_text, contains, text_before, text_after.
  rewrite Hfind. split; f_equal.
  - rewrite Nat.add_0_r, take_app_add. simpl take.
    rewrite strip_snoc by done. unfold strip_trailing_comma.
    rewrite (proj1 utf8_commas), (proj2 utf8_commas).
    rewrite removesuffix_snoc_ne by done. by rewrite removesuffix_snoc.
  - replace (title ++ 65292%N :: marker ++ folder_id)
      with ((title ++ 65292%N :: marker) ++ folder_id)
      by (by rewrite <- app_assoc).
    rewrite drop_app_length'; [done|].
    rewrite length_app. simpl. change (length marker) with 5%nat. lia.
Qed.

Lemma heading_round_trip_witness :
  section_of_row 7 (Some (u "報表 A" ++ u "，功能代碼:" ++ u "R-01")) None
    !! "title" = Some (u "報表 A")
  ∧ section_of_row 7 (Some (u "報表 A" ++ u "，功能代碼:" ++ u "R-01")) None
    !! "folder" = Some (u "R-01").
Proof.
  apply (heading_round_trip (u "報表 A") (u "R-01") 7 None); reflexivity.
Defined.

(** ** More on the section assembler *)

Lemma listing_error_eq (w : world) (info : gmap string pystr)
    (image_folder : pystr) (doc : document) (e : exn) :
  os_listdir w image_folder = Raise e → is_FileNotFoundError e = false →
  append_section w info image_folder doc = (Raise e, doc).
Proof. intros Hls He. by rewrite append_section_eq, Hls, He. Qed.

(** X5: an error of the folder listing other than [FileNotFoundError]
    (the path is a file, access is denied) is not caught: the call
    raises it and leaves the document as it was. *)
Theorem listing_error_propagates (w : world) (info : gmap string pystr)
    (image_folder : pystr) (doc : document) (e : exn) :
  os_listdir w image_folder = Raise e → is_FileNotFoundError e = false →
  append_section w info image_folder doc = (Raise e, doc).
Proof. apply listing_error_eq. Qed.

Lemma listing_error_propagates_witness :
  append_section
    {| os_listdir := λ _, Raise (Exn OtherException (u "Not a directory"));
       add_picture_failure := λ _, None |}
    sample_info (u "img/001") [Table 0]
  = (Raise (Exn OtherException (u "Not a directory")), [Table 0]).
Proof.
  refine (listing_error_propagates _ sample_info (u "img/001")
            [Table 0] _ _ _); reflexivity.
Defined.

(** *** The order of [sorted] *)

Lemma str_le_refl (a : pystr) : str_le a a = true.
Proof.
  induction a as [|x a IH]; simpl; [done|].
  by rewrite N.eqb_refl, IH, orb_true_r.
Qed.

Lemma str_le_total (a b : pystr) : str_le a b = false → str_le b a = true.
Proof.
  revert b. induction a as [|x a IH]; intros [|y b]; simpl; try done.
  destruct (N.ltb_spec x y), (N.eqb_spec x y), (N.ltb_spec y x),
    (N.eqb_spec y x); simpl; try done; try lia.
  apply IH.
Qed.

Lemma str_le_trans (a b c : pystr) :
  str_le a b = true → str_le b c = true → str_le a c = true.
Proof.
  revert b c. induction a as [|x a IH]; intros [|y b] [|z c]; simpl; try done.
  destruct (N.ltb_spec x y), (N.eqb_spec x y), (N.ltb_spec y z),
    (N.eqb_spec y z), (N.ltb_spec x z), (N.eqb_spec x z);
    simpl; try done; try lia.
  apply IH.
Qed.

Lemma insert_sorted_perm (x : pystr) (l : list pystr) :
  insert_sorted x l ≡ₚ x :: l.
Proof.
  induction l as [|y l IH]; simpl; [done|].
  destruct (str_le x y); [done|]. by rewrite IH, Permutation_swap.
Qed.

Lemma sorted_perm (l : list pystr) : sorted l ≡ₚ l.
Proof.
  induction l as [|x l IH]; simpl; [done|].
  by rewrite insert_sorted_perm, IH.
Qed.

Lemma insert_sorted_sorted (x : pystr) (l : list pystr) :
  StronglySorted str_le_prop l → StronglySorted str_le_prop (insert_sorted x l).
Proof.
  induction 1 as [|y l Hl IH Hall]; simpl.
  - by repeat constructor.
  - destruct (str_le x y) eqn:Hxy.
    + constructor; [by constructor|]. constructor; [done|].
      eapply Forall_impl; [exact Hall|]. intros z Hz.
      by apply (str_le_trans x y z).
    + constructor; [done|]. rewrite insert_sorted_perm.
      constructor; [|done]. by apply str_le_total.
Qed.

Lemma sorted_sorted (l : list pystr) : StronglySorted str_le_prop (sorted l).
Proof.
  induction l as [|x l IH]; simpl; [constructor|].
  by apply insert_sorted_sorted.
Qed.

(** X6: when the folder can be listed, the ImageSet is in ascending
    order, and it holds exactly the entries whose name ends in [.png],
    [.jpg] or [.jpeg] in any letter case, each joined to the folder,
    with their multiplicity; other files are never inserted. *)
Theorem image_set_sorted_selection (w : world) (image_folder : pystr)
    (names : list pystr) :
  os_listdir w image_folder = Return names →
  StronglySorted str_le_prop (image_set w image_folder)
  ∧ image_set w image_folder
    ≡ₚ os_path_join image_folder <$> List.filter is_image_name names
  ∧ (∀ p, p ∈ image_set w image_folder ↔
          ∃ name, name ∈ names ∧ is_image_name name = true
                  ∧ p = os_path_join image_folder name).
Proof.
  intros Hls. unfold image_set. rewrite Hls. split_and!.
  - apply sorted_sorted.
  - apply sorted_perm.
  - intros p. rewrite sorted_perm, list_elem_of_fmap.
    split.
    + intros (name & -> & Hin). exists name.
      apply list_elem_of_In, List.filter_In in Hin as [Hin Himg].
      by rewrite <- list_elem_of_In in Hin.
    + intros (name & Hin & Himg & ->). exists name. split; [done|].
      apply list_elem_of_In, List.filter_In. by rewrite <- list_elem_of_In.
Qed.

Lemma image_set_sorted_selection_witness :
  StronglySorted str_le_prop (image_set sample_world (u "img/001"))
  ∧ image_set sample_world (u "img/001")
    ≡ₚ os_path_join (u "img/001")
         <$> List.filter is_image_name [u "b.PNG"; u "a.png"; u "notes.txt"]
  ∧ (∀ p, p ∈ image_set sample_world (u "img/001") ↔
          ∃ name, name ∈ [u "b.PNG"; u "a.png"; u "notes.txt"]
                  ∧ is_image_name name = true
                  ∧ p = os_path_join (u "img/001") name).
Proof.
  apply (image_set_sorted_selection sample_world (u "img/001")). reflexivity.
Defined.

Lemma os_path_join_prefix (a name : pystr) :
  startswith name (u "/") = false →
  os_path_join a name = join_prefix a ++ name.
Proof.
  intros Hname. unfold os_path_join, join_prefix. rewrite Hname.
  destruct (bool_decide (a = []) || endswith a (u "/")); [done|].
  by rewrite <- app_assoc.
Qed.

Lemma str_le_app (p a b : pystr) : str_le (p ++ a) (p ++ b) = str_le a b.
Proof.
  induction p as [|x p IH]; simpl; [done|].
  by rewrite N.ltb_irrefl, N.eqb_refl, IH.
Qed.

Lemma insert_sorted_fmap (p x : pystr) (l : list pystr) :
  insert_sorted (p ++ x) ((p ++.) <$> l) = (p ++.) <$> insert_sorted x l.
Proof.
  induction l as [|y l IH]; [done|].
  change (insert_sorted (p ++ x) ((p ++.) <$> y :: l))
    with (if str_le (p ++ x) (p ++ y)
          then (p ++ x) :: (p ++ y) :: ((p ++.) <$> l)
          else (p ++ y) :: insert_sorted (p ++ x) ((p ++.) <$> l)).
  change (insert_sorted x (y :: l))
    with (if str_le x y then x :: y :: l else y :: insert_sorted x l).
  rewrite str_le_app, IH. by destruct (str_le x y).
Qed.

Lemma sorted_fmap (p : pystr) (l : list pystr) :
  sorted ((p ++.) <$> l) = (p ++.) <$> sorted l.
Proof.
  induction l as [|x l IH]; [done|].
  change (insert_sorted (p ++ x) (sorted ((p ++.) <$> l))
          = (p ++.) <$> insert_sorted x (sorted l)).
  by rewrite IH, insert_sorted_fmap.
Qed.

(** X7: the source sorts the joined paths; as the entries of a
    directory never start with a slash, that is the same as sorting the
    image files by file name and joining them to the folder afterwards. *)
Theorem image_set_by_file_name (w : world) (image_folder : pystr)
    (names : list pystr) :
  os_listdir w image_folder = Return names →
  (∀ name, name ∈ names → startswith name (u "/") = false) →
  image_set w image_folder
  = os_path_join image_folder <$> sorted (List.filter is_image_name names).
Proof.
  intros Hls Hnames. unfold image_set. rewrite Hls.
  assert (∀ l : list pystr,
            (∀ name, name ∈ l → name ∈ names) →
            os_path_join image_folder <$> l
            = (join_prefix image_folder ++.) <$> l) as Hjoin.
  { intros l Hl. apply list_fmap_ext. intros i name Hi.
    apply os_path_join_prefix, Hnames, Hl.
    by apply list_elem_of_lookup_2 in Hi. }
  rewrite !Hjoin.
  - apply sorted_fmap.
  - intros name Hin. rewrite sorted_perm in Hin.
    apply list_elem_of_In, List.filter_In in Hin as [Hin _].
    by apply list_elem_of_In.
  - intros name Hin.
    apply list_elem_of_In, List.filter_In in Hin as [Hin _].
    by apply list_elem_of_In.
Qed.

Lemma image_set_by_file_name_witness :
  image_set sample_world (u "img/001")
  = os_path_join (u "img/001")
      <$> sorted (List.filter is_image_name [u "b.PNG"; u "a.png"; u "notes.txt"]).
Proof.
  apply (image_set_by_file_name sample_world (u "img/001")
           [u "b.PNG"; u "a.png"; u "notes.txt"]); [reflexivity|].
  intros name [->|[->|[->|H]%elem_of_cons]%elem_of_cons]%elem_of_cons;
    [reflexivity..|].
  by apply not_elem_of_nil in H.
Defined.

(** *** Projections of a rendered skeleton *)

Lemma filter_render_slots (f : block → bool) (slot : nat → list block)
    (items : list item) :
  Forall (λ b, f b = false) (fixed_blocks items) →
  List.filter f (render slot items)
  = omap slot_index items ≫= λ i, List.filter f (slot i).
Proof.
  unfold render. induction items as [|[b|i] items IH]; intros Hfixed.
  - done.
  - change (fixed_blocks (Block b :: items)) with (b :: fixed_blocks items)
      in Hfixed.
    inversion_clear Hfixed as [|? ? Hb Hrest].
    rewrite bind_cons. simpl. rewrite Hb. by apply IH.
  - rewrite bind_cons, List.filter_app, (IH Hfixed). simpl omap.
    by rewrite bind_cons.
Qed.

Lemma filter_render_fixed (f : block → bool) (slot : nat → list block)
    (items : list item) :
  (∀ i, List.filter f (slot i) = []) →
  List.filter f (render slot items) = List.filter f (fixed_blocks items).
Proof.
  intros Hslot. unfold render. induction items as [|[b|i] items IH].
  - done.
  - rewrite bind_cons. simpl. by rewrite IH.
  - rewrite bind_cons, List.filter_app, Hslot, IH. done.
Qed.


Lemma filter_none_bool {A} (f : A → bool) (l : list A) :
  Forall (λ x, f x = false) l → List.filter f l = [].
Proof. induction 1 as [|x l Hx _ IH]; simpl; [done|]. by rewrite Hx. Qed.

Lemma bind_seq_lookup {A B} (f : A → list B) (l : list A) (n : nat) :
  seq 0 n ≫= (λ i, from_option f [] (l !! i)) = take n l ≫= f.
Proof.
  revert n. induction l as [|x l IH]; intros n.
  - rewrite take_nil. induction (seq 0 n) as [|i s IHs]; [done|].
    by rewrite bind_cons, IHs.
  - destruct n as [|n]; [done|].
    change (seq 0 (S n)) with (0%nat :: seq 1 n).
    rewrite <- fmap_S_seq, !bind_cons. simpl. f_equal.
    rewrite <- IH. induction (seq 0 n) as [|i s IHs]; [done|].
    by rewrite fmap_cons, !bind_cons, IHs.
Qed.

(** *** Kinds of blocks *)

Lemma is_picture_paragraph (st : style) (t : pystr)
    (al : option WD_ALIGN_PARAGRAPH) :
  is_picture (Para (Paragraph st (fonted_runs t) al)) = false.
Proof. by destruct t. Qed.

Lemma is_page_break_paragraph (st : style) (t : pystr)
    (al : option WD_ALIGN_PARAGRAPH) :
  is_page_break (Para (Paragraph st (fonted_runs t) al)) = false.
Proof. by destruct t. Qed.

Lemma text_fonted_paragraph (st : style) (t : pystr)
    (al : option WD_ALIGN_PARAGRAPH) :
  text_fonted (Para (Paragraph st (fonted_runs t) al)).
Proof. destruct t; simpl; by repeat constructor. Qed.

Lemma skeleton_fixed_no_picture (title folder_id query : pystr) :
  Forall (λ b, is_picture b = false)
    (fixed_blocks (skeleton title folder_id query)).
Proof.
  unfold skeleton. cbn [fixed_blocks omap option_bind mbind].
  repeat (constructor; [first [apply is_picture_paragraph | reflexivity]|]).
  constructor.
Qed.


Lemma folder_warning_kind (w : world) (info : gmap string pystr)
    (image_folder : pystr) :
  Forall (λ b, is_picture b = false ∧ is_page_break b = false
               ∧ (∀ l, is_heading l b = false) ∧ text_fonted b)
    (folder_warning w info image_folder).
Proof.
  unfold folder_warning. destruct (os_listdir w image_folder) as [|e];
    [constructor|].
  destruct (is_FileNotFoundError e); constructor; [|constructor].
  split_and!; [apply is_picture_paragraph | apply is_page_break_paragraph
              | done | apply text_fonted_paragraph].
Qed.

(** What an image slot contributes, when nothing a failed insertion
    leaves behind satisfies [f]. *)
Lemma filter_slot_blocks (f : block → bool) (w : world) (images : list pystr)
    (i : nat) :
  residues (λ b, f b = false) w →
  (∀ t, f (centered_paragraph_block t) = false) →
  List.filter f (slot_blocks w images i)
  = from_option
      (λ path, if readable w path && f (picture_block path)
               then [picture_block path] else [])
      [] (images !! i).
Proof.
  intros Hres Hwarn. unfold slot_blocks, readable.
  destruct (images !! i) as [path|]; simpl; [|by rewrite Hwarn].
  destruct (add_picture_failure w path) as [[partial e]|] eqn:Hp; simpl.
  - rewrite List.filter_app, (filter_none_bool f partial) by by eapply Hres.
    simpl. by rewrite Hwarn.
  - by destruct (f (picture_block path)).
Qed.

Lemma bind_ext_all {A B} (f g : A → list B) (l : list A) :
  (∀ x, f x = g x) → l ≫= f = l ≫= g.
Proof.
  intros Hfg. induction l as [|x l IH]; [done|].
  by rewrite !bind_cons, Hfg, IH.
Qed.

Lemma bind_filter_fmap {A B} (p : A → bool) (f : A → B) (l : list A) :
  l ≫= (λ x, if p x then [f x] else []) = f <$> List.filter p l.
Proof.
  induction l as [|x l IH]; [done|].
  rewrite bind_cons, IH. simpl. by destruct (p x).
Qed.

(** X8: the images a call inserts are the readable ones among the first
    eleven of the ImageSet, in the order of the ImageSet, each at the
    uniform width and centre-aligned; a twelfth image is never
    inserted. *)
Theorem pictures_inserted (w : world) (info : gmap string pystr)
    (image_folder : pystr) (doc : document) :
  lists_or_missing w image_folder →
  residues (λ b, is_picture b = false) w →
  ∃ delta,
    append_section w info image_folder doc = (Return (), doc ++ delta)
    ∧ List.filter is_picture delta
      = picture_block
          <$> List.filter (readable w) (take 11 (image_set w image_folder)).
Proof.
  intros Hok Hres. exists (section_delta w info image_folder). split.
  - by apply appends_unit, append_section_appends.
  - unfold section_delta. rewrite List.filter_app.
    rewrite (filter_none_bool is_picture (folder_warning _ _ _)).
    2:{ eapply Forall_impl; [apply folder_warning_kind|]. by intros b [? _]. }
    rewrite filter_render_slots by apply skeleton_fixed_no_picture.
    rewrite skeleton_slots, app_nil_l.
    erewrite bind_ext_all.
    2:{ intros i. apply filter_slot_blocks; [done|].
        intros t. apply is_picture_paragraph. }
    rewrite bind_seq_lookup. rewrite <- bind_filter_fmap.
    apply bind_ext_all. intros path. by rewrite andb_true_r.
Qed.

Lemma pictures_inserted_witness :
  ∃ delta,
    append_section sample_world sample_info (u "img/001") [] = (Return (), [] ++ delta)
    ∧ List.filter is_picture delta
      = picture_block
          <$> List.filter (readable sample_world)
                (take 11 (image_set sample_world (u "img/001"))).
Proof.
  apply (pictures_inserted sample_world sample_info (u "img/001") []).
  - apply sample_world_lists_or_missing.
  - intros path partial e. simpl. destruct (bool_decide _); [|done].
    intros [= <- _]. constructor.
Defined.

Lemma filter_slot_blocks_none (f : block → bool) (w : world)
    (images : list pystr) (i : nat) :
  residues (λ b, f b = false) w →
  (∀ t, f (centered_paragraph_block t) = false) →
  (∀ path, f (picture_block path) = false) →
  List.filter f (slot_blocks w images i) = [].
Proof.
  intros Hres Hwarn Hpic. rewrite filter_slot_blocks by done.
  destruct (images !! i) as [path|]; simpl; [|done].
  by rewrite Hpic, andb_false_r.
Qed.

Lemma skeleton_page_breaks (title folder_id query : pystr) :
  List.filter is_page_break (fixed_blocks (skeleton title folder_id query))
  = replicate 5 page_break_block.
Proof. destruct title; reflexivity. Qed.

(** A projection that drops what the image slots and the folder
    warning contribute keeps the fixed blocks of the skeleton. *)
Lemma filter_section_delta_fixed (f : block → bool) (w : world)
    (info : gmap string pystr) (image_folder : pystr) :
  residues (λ b, f b = false) w →
  (∀ t al, f (Para (Paragraph DefaultStyle (fonted_runs t) al)) = false) →
  (∀ path, f (picture_block path) = false) →
  List.filter f (section_delta w info image_folder)
  = List.filter f
      (fixed_blocks (skeleton (title_of info) (folder_id_of info)
                       (query_condition_of info))).
Proof.
  intros Hres Hdefault Hpic.
  unfold section_delta. rewrite List.filter_app.
  rewrite (filter_none_bool f (folder_warning _ _ _)).
  2:{ unfold folder_warning. destruct (os_listdir w image_folder) as [|e];
        [constructor|].
      destruct (is_FileNotFoundError e); constructor; [|constructor].
      apply Hdefault. }
  apply filter_render_fixed. intros i.
  apply filter_slot_blocks_none; [done| |done].
  intros t. apply Hdefault.
Qed.

Lemma residues_impl (P Q : block → Prop) (w : world) :
  (∀ b, P b → Q b) → residues P w → residues Q w.
Proof.
  intros HPQ Hres path partial e Hp.
  eapply Forall_impl; [by eapply Hres | done].
Qed.

(** X9: the layout of a section does not depend on the images.  Every
    call appends exactly five page breaks, one level-2 heading reading
    the title, the marker and the folder identifier, the three level-3
    headings and the five level-4 headings, in this order. *)
Theorem section_layout (w : world) (info : gmap string pystr)
    (image_folder : pystr) (doc : document) :
  lists_or_missing w image_folder →
  residues (λ b, is_page_break b = false ∧ ∀ l, is_heading l b = false) w →
  ∃ delta,
    append_section w info image_folder doc = (Return (), doc ++ delta)
    ∧ List.filter is_page_break delta = replicate 5 page_break_block
    ∧ List.filter (is_heading 2) delta
      = [heading_block 2 (title_of info ++ u "，功能代碼:" ++ folder_id_of info)]
    ∧ List.filter (is_heading 3) delta
      = heading_block 3 <$> [u "查詢功能"; u "核可功能"; u "退回"]
    ∧ List.filter (is_heading 4) delta
      = heading_block 4
          <$> [u "查詢所有資料"; u "查詢特定資料"; u "查詢結果";
               u "已查詢且有資料，點擊核可按鈕"; u "未查詢或無資料，點擊核可按鈕"].
Proof.
  intros Hok Hres. exists (section_delta w info image_folder). split.
  { by apply appends_unit, append_section_appends. }
  split_and!.
  - rewrite filter_section_delta_fixed.
    + apply skeleton_page_breaks.
    + eapply residues_impl; [|exact Hres]. by intros b [Hb _].
    + intros t al. apply is_page_break_paragraph.
    + done.
  - rewrite filter_section_delta_fixed; [done| |done..].
    eapply residues_impl; [|exact Hres]. by intros b [_ Hb].
  - rewrite filter_section_delta_fixed; [done| |done..].
    eapply residues_impl; [|exact Hres]. by intros b [_ Hb].
  - rewrite filter_section_delta_fixed; [done| |done..].
    eapply residues_impl; [|exact Hres]. by intros b [_ Hb].
Qed.

Lemma sample_world_residues (P : block → Prop) : residues P sample_world.
Proof.
  intros path partial e. simpl. destruct (bool_decide _); [|done].
  intros [= <- _]. constructor.
Qed.

Lemma section_layout_witness :
  ∃ delta,
    append_section sample_world sample_info (u "img/002") [Table 0]
    = (Return (), [Table 0] ++ delta)
    ∧ List.filter is_page_break delta = replicate 5 page_break_block
    ∧ List.filter (is_heading 2) delta
      = [heading_block 2 (u "Title，功能代碼:001")]
    ∧ List.filter (is_heading 3) delta
      = heading_block 3 <$> [u "查詢功能"; u "核可功能"; u "退回"]
    ∧ List.filter (is_heading 4) delta
      = heading_block 4
          <$> [u "查詢所有資料"; u "查詢特定資料"; u "查詢結果";
               u "已查詢且有資料，點擊核可按鈕"; u "未查詢或無資料，點擊核可按鈕"].
Proof.
  apply (section_layout sample_world sample_info (u "img/002") [Table 0]).
  - apply sample_world_lists_or_missing.
  - apply sample_world_residues.
Defined.



(** X11: the call reads the title, the folder identifier and the query
    condition of the descriptor and nothing else: two descriptors that
    agree on these three keys give the same result, so that changing or
    removing [base_number] changes nothing. *)
Theorem append_section_reads_three_keys (w : world)
    (info info' : gmap string pystr) (image_folder : pystr) (doc : document) :
  (info !! "title" = info' !! "title" →
   info !! "folder" = info' !! "folder" →
   info !! "query_condition" = info' !! "query_condition" →
   append_section w info image_folder doc
   = append_section w info' image_folder doc)
  ∧ (∀ label,
       append_section w (<["base_number" := label]> info) image_folder doc
       = append_section w info image_folder doc)
  ∧ append_section w (delete "base_number" info) image_folder doc
    = append_section w info image_folder doc.
Proof.
  assert (∀ i1 i2 : gmap string pystr,
            i1 !! "title" = i2 !! "title" → i1 !! "folder" = i2 !! "folder" →
            i1 !! "query_condition" = i2 !! "query_condition" →
            append_section w i1 image_folder doc
            = append_section w i2 image_folder doc) as Hkeys.
  { intros i1 i2 Ht Hf Hq. rewrite !append_section_eq.
    unfold section_delta, folder_warning, title_of, folder_id_of,
      query_condition_of. by rewrite Ht, Hf, Hq. }
  split_and!.
  - apply Hkeys.
  - intros label. apply Hkeys; by rewrite lookup_insert_ne.
  - apply Hkeys; by rewrite lookup_delete_ne.
Qed.

Lemma append_section_reads_three_keys_witness :
  append_section sample_world
    {[ "title" := u "Title"; "folder" := u "001";
       "query_condition" := u "ID > 5" ]} (u "img/001") []
  = append_section sample_world sample_info (u "img/001") [].
Proof.
  apply (proj1 (append_section_reads_three_keys sample_world _ sample_info
                  (u "img/001") [])); reflexivity.
Defined.

(** ** More on the request handler *)





Lemma for_each_app {A} (l1 l2 : list A) (body : A → M ()) (doc : document) :
  for_each (l1 ++ l2) body doc
  = (for_each l1 body;; for_each l2 body) doc.
Proof.
  revert doc. induction l1 as [|x l1 IH]; intros doc; simpl.
  - done.
  - rewrite !bind_eq. destruct (body x doc) as [[[]|e] doc']; [|done].
    rewrite IH. by rewrite bind_eq.
Qed.

(** The loop body of the handler, on a descriptor of the parser. *)
Lemma handler_body_eq (r : request) (img_root : pystr)
    (s : gmap string pystr) (doc : document) :
  s ∈ parse_excel_config (config_file r) →
  (folder ← getitem s "folder";
   append_section (fs r) s (joinpath r img_root folder)) doc
  = append_section (fs r) s (joinpath r img_root (folder_id_of s)) doc.
Proof.
  intros Hs.
  apply (getitem_bind_eq s "folder" (folder_id_of s)
           (λ folder, append_section (fs r) s (joinpath r img_root folder))).
  by apply (parse_excel_config_folder (config_file r)).
Qed.


(** X13: an error that is not recoverable ends the request without
    output.  An archive that cannot be extracted, or a section whose
    folder listing fails otherwise than by a missing folder, raises the
    error to the caller and no document is saved, even when earlier
    sections were assembled. *)
Theorem fatal_error_aborts_request (r : request) :
  (∀ e, parse_excel_config (config_file r) ≠ [] →
        extractall_failure r = Some e →
        upload_and_process r = (Raise e, None))
  ∧ (∀ before s after e,
       parse_excel_config (config_file r) = before ++ s :: after →
       extractall_failure r = None →
       (∀ s', s' ∈ before → lists_or_missing (fs r) (image_folder_of r s')) →
       os_listdir (fs r) (image_folder_of r s) = Raise e →
       is_FileNotFoundError e = false →
       upload_and_process r = (Raise e, None)).
Proof.
  split.
  - intros e Hne Hzip. unfold upload_and_process. rewrite Hzip.
    by destruct (parse_excel_config (config_file r)).
  - intros before s after e Hparse Hzip Hbefore Hls He.
    unfold upload_and_process. rewrite Hzip.
    assert (∀ s', s' ∈ before ++ s :: after →
                  s' ∈ parse_excel_config (config_file r)) as Hin
      by (intros s'; by rewrite Hparse).
    rewrite Hparse.
    destruct (before ++ s :: after) as [|s0 rest] eqn:Hall;
      [by destruct before|].
    rewrite <- Hall, for_each_app, bind_eq.
    erewrite appends_unit; cycle 1.
    { apply (for_each_appends before _
               (λ s', section_delta (fs r) s' (image_folder_of r s'))).
      intros s' Hs' doc. exists ().
      rewrite (handler_body_eq r); [|apply Hin; rewrite <- Hall;
        apply elem_of_app; by left].
      by apply appends_unit, append_section_appends, Hbefore. }
    simpl for_each. rewrite bind_eq, (handler_body_eq r).
    + fold (img_root_of r). fold (image_folder_of r s).
      by rewrite (listing_error_eq _ _ _ _ _ Hls He).
    + apply Hin. rewrite <- Hall. apply elem_of_app. right. by left.
Qed.

Lemma fatal_error_aborts_request_witness :
  let denied := Exn OtherException (u "Permission denied") in
  let bad_zip := Exn OtherException (u "File is not a zip file") in
  let r (zip : option exn) :=
    {| main_docx_filename := u "manual.docx";
       main_docx := [Table 0];
       config_file := sample_rows;
       sid_path := u "temp/sid";
       sid_path_name := u "sid";
       extractall_failure := zip;
       subs := [(u "img", true)];
       fs := {| os_listdir := λ path,
                  if bool_decide (path = u "img/001")
                  then Return [u "a.png"] else Raise denied;
                add_picture_failure := λ _, None |};
       joinpath := os_path_join |} in
  upload_and_process (r (Some bad_zip)) = (Raise bad_zip, None)
  ∧ upload_and_process (r None) = (Raise denied, None).
Proof.
  intros denied bad_zip r. split.
  - apply (proj1 (fatal_error_aborts_request (r (Some bad_zip)))).
    + discriminate.
    + reflexivity.
  - apply (proj2 (fatal_error_aborts_request (r None))
             [section_of_row 1 (Some (u "Title功能代碼:001")) (Some (u "ID > 5"))]
             (section_of_row 3 (Some (u "Other")) None) [] denied).
    + reflexivity.
    + reflexivity.
    + intros s' ->%list_elem_of_singleton e. simpl. by intros [=].
    + reflexivity.
    + reflexivity.
Defined.

Lemma upload_and_process_success (r : request) :
  parse_excel_config (config_file r) ≠ [] →
  extractall_failure r = None →
  (∀ s, s ∈ parse_excel_config (config_file r) →
        lists_or_missing (fs r) (image_folder_of r s)) →
  upload_and_process r
  = (Return {| message := u "處理完成！";
               output_filename := u "processed_" ++ main_docx_filename r;
               download_filename :=
                 sid_path_name r ++ u "/" ++ u "processed_"
                   ++ main_docx_filename r |},
     Some (joinpath r (sid_path r) (u "processed_" ++ main_docx_filename r),
           main_docx r
             ++ (parse_excel_config (config_file r)
                   ≫= λ s, section_delta (fs r) s (image_folder_of r s)))).
Proof.
  intros Hne Hzip Hfolders. unfold upload_and_process.
  destruct (parse_excel_config (config_file r)) as [|s0 sections] eqn:Hparse;
    [done|].
  rewrite Hzip. erewrite appends_unit; [done|].
  apply (for_each_appends (s0 :: sections) _
           (λ s, section_delta (fs r) s (image_folder_of r s))).
  intros s Hs doc. exists ().
  rewrite (handler_body_eq r) by by rewrite Hparse.
  apply appends_unit, append_section_appends, (Hfolders s Hs).
Qed.





(** ** The download endpoint *)

(** X15: the download reference of a reply leads to the saved document.
    In a session directory created under [TEMP_DIR] by its name, the
    path that [download_file] looks up for the session name and the
    output file name of the reply is the path the handler saved to; the
    file is served under the output file name when it exists, and the
    request ends with the error 404 when it does not. *)
Theorem download_finds_saved_document (r : request) (TEMP_DIR : pystr)
    (path_exists : pystr → bool) (resp : response) (path : pystr)
    (doc : document) :
  upload_and_process r = (Return resp, Some (path, doc)) →
  sid_path r = joinpath r TEMP_DIR (sid_path_name r) →
  download_filename resp = sid_path_name r ++ u "/" ++ output_filename resp
  ∧ (path_exists path = true →
     ∃ media_type,
       download_file (joinpath r) TEMP_DIR path_exists
         (sid_path_name r) (output_filename resp)
       = Return {| fr_path := path;
                   fr_filename := output_filename resp;
                   fr_media_type := media_type |})
  ∧ (path_exists path = false →
     download_file (joinpath r) TEMP_DIR path_exists
       (sid_path_name r) (output_filename resp)
     = Raise (Exn (HTTPException 404) (u "找不到檔案"))).
Proof.
  intros Hup Hsid. unfold upload_and_process in Hup.
  destruct (parse_excel_config (config_file r)); [done|].
  destruct (extractall_failure r); [done|].
  destruct (for_each _ _ _) as [[[]|e] doc']; [|done].
  injection Hup as <- <- <-. simpl. unfold download_file.
  rewrite <- Hsid. split; [done|].
  split; intros ->; [by eexists | done].
Qed.

Lemma download_finds_saved_document_witness :
  ∃ media_type,
    download_file os_path_join (u "temp") (λ _, true) (u "sid")
      (u "processed_manual.docx")
    = Return {| fr_path := u "temp/sid/processed_manual.docx";
                fr_filename := u "processed_manual.docx";
                fr_media_type := media_type |}.
Proof.
  assert (upload_and_process sample_request
          = (Return {| message := u "處理完成！";
                       output_filename := u "processed_manual.docx";
                       download_filename := u "sid/processed_manual.docx" |},
             Some (u "temp/sid/processed_manual.docx",
                   [Table 0]
                     ++ (parse_excel_config sample_rows
                           ≫= λ s, section_delta sample_world s
                                     (image_folder_of sample_request s)))))
    as Hup.
  { apply (upload_and_process_success sample_request).
    - discriminate.
    - reflexivity.
    - intros s _. apply sample_world_lists_or_missing. }
  apply (proj1 (proj2 (download_finds_saved_document sample_request
                         (u "temp") (λ _, true) _ _ _ Hup eq_refl))).
  reflexivity.
Defined.

(** ** Edge cases *)

Lemma strip_spaces (s : pystr) : spaces s → strip s = [].
Proof.
  intros Hs. unfold strip.
  by rewrite <- (app_nil_r s), lstrip_spaces.
Qed.

(** X16: a title cell that holds only white space is not an empty
    cell: its row is not skipped, and yields a descriptor with an empty
    title and an empty folder identifier. *)
Theorem whitespace_only_title_emitted (s : pystr) (b : cell) :
  s ≠ [] → spaces s →
  (λ d, (d !! "title", d !! "folder")) <$> parse_excel_config [(Some s, b)]
  = [(Some [], Some [])].
Proof.
  intros Hne Hs. rewrite parse_excel_config_titled_rows.
  unfold titled_rows. simpl enumerate.
  rewrite filter_cons, decide_True
    by (simpl; intros [H|H]; [done | by injection H]).
  rewrite filter_nil. simpl fmap.
  unfold section_of_row. simpl py_str. rewrite (strip_spaces s Hs).
  reflexivity.
Qed.

Lemma whitespace_only_title_emitted_witness :
  (λ d, (d !! "title", d !! "folder"))
    <$> parse_excel_config [(Some (u "  "), Some (u "ID > 5"))]
  = [(Some [], Some [])].
Proof.
  apply whitespace_only_title_emitted; [discriminate|].
  by repeat constructor.
Defined.

Lemma is_slot_warning_centered (t : pystr) :
  is_slot_warning (centered_paragraph_block t) = true.
Proof. by destruct t. Qed.

Lemma skeleton_fixed_no_slot_warning (title folder_id query : pystr) :
  Forall (λ b, is_slot_warning b = false)
    (fixed_blocks (skeleton title folder_id query)).
Proof.
  unfold skeleton. cbn [fixed_blocks omap option_bind mbind].
  repeat (constructor; [reflexivity|]). constructor.
Qed.

Lemma bind_seq_present {A B} (f : nat → option A → list B) (l : list A)
    (n : nat) :
  (∀ i x, f i (Some x) = []) → (n ≤ length l)%nat →
  seq 0 n ≫= (λ i, f i (l !! i)) = [].
Proof.
  intros Hf Hn.
  assert (∀ s : list nat, Forall (λ i, i < length l)%nat s →
                          s ≫= (λ i, f i (l !! i)) = []) as Hall.
  { induction 1 as [|i s Hi _ IH]; [done|].
    rewrite bind_cons, IH.
    destruct (lookup_lt_is_Some_2 l i Hi) as [x ->]. by rewrite Hf. }
  apply Hall, Forall_forall. intros i Hi%elem_of_seq. lia.
Qed.

Lemma bind_seq_absent {A B} (f : nat → option A → list B) (l : list A)
    (k n : nat) :
  (length l ≤ k)%nat →
  seq k n ≫= (λ i, f i (l !! i)) = seq k n ≫= (λ i, f i None).
Proof.
  intros Hk.
  assert (∀ s : list nat, Forall (λ i, length l ≤ i)%nat s →
            s ≫= (λ i, f i (l !! i)) = s ≫= (λ i, f i None)) as Hall.
  { induction 1 as [|i s Hi _ IH]; [done|].
    by rewrite !bind_cons, IH, (lookup_ge_None_2 l i). }
  apply Hall, Forall_forall. intros i Hi%elem_of_seq. lia.
Qed.

(** X17: when every image of the folder can be inserted, the warnings
    left in the image slots are those of the missing images and name
    them by their 1-based number: with n images, n below 11, they read
    n+1, ..., 11 in this order; with 11 images or more there is none. *)
Theorem missing_slots_numbered (w : world) (info : gmap string pystr)
    (image_folder : pystr) (doc : document) :
  lists_or_missing w image_folder →
  (∀ path, path ∈ image_set w image_folder →
           add_picture_failure w path = None) →
  let n := length (image_set w image_folder) in
  ∃ delta,
    append_section w info image_folder doc = (Return (), doc ++ delta)
    ∧ List.filter is_slot_warning delta
      = (λ i, centered_paragraph_block (missing_image_warning i))
          <$> seq n (11 - n).
Proof.
  intros Hok Hread n. exists (section_delta w info image_folder). split.
  { by apply appends_unit, append_section_appends. }
  unfold section_delta. rewrite List.filter_app.
  rewrite (filter_none_bool is_slot_warning (folder_warning _ _ _)).
  2:{ unfold folder_warning. destruct (os_listdir w image_folder) as [|e];
        [constructor|].
      destruct (is_FileNotFoundError e); by repeat constructor. }
  rewrite filter_render_slots by apply skeleton_fixed_no_slot_warning.
  rewrite skeleton_slots, app_nil_l.
  set (images := image_set w image_folder) in *.
  set (W := λ i, centered_paragraph_block (missing_image_warning i)).
  set (f := λ (i : nat) (o : option pystr),
              match o with Some _ => [] | None => [W i] end).
  rewrite (bind_ext_all _ (λ i, f i (images !! i))).
  2:{ intros i. unfold slot_blocks, f.
      destruct (images !! i) as [path|] eqn:Hi.
      - rewrite (Hread path) by by eapply list_elem_of_lookup_2. done.
      - cbn [List.filter]. by rewrite is_slot_warning_centered. }
  replace 11%nat with (min n 11 + (11 - n))%nat at 1 by lia.
  rewrite seq_app, bind_app, Nat.add_0_l.
  rewrite (bind_seq_present f images) by (done || lia).
  rewrite app_nil_l.
  destruct (decide (n ≤ 11)%nat) as [Hn|Hn].
  - rewrite Nat.min_l by done. rewrite bind_seq_absent by done.
    unfold f. induction (seq n (11 - n)) as [|i s IH]; [done|].
    by rewrite bind_cons, IH.
  - by replace (11 - n)%nat with 0%nat by lia.
Qed.

Lemma missing_slots_numbered_witness :
  ∃ delta,
    append_section eleven_images_world sample_info (u "img/002") []
    = (Return (), [] ++ delta)
    ∧ List.filter is_slot_warning delta
      = (λ i, centered_paragraph_block (missing_image_warning i))
          <$> seq 0 (11 - 0).
Proof.
  apply (missing_slots_numbered eleven_images_world sample_info
           (u "img/002") []).
  - intros e. simpl. by intros [= <-].
  - done.
Defined.
